(** * CHRONO-HEALTH: the symptom inference pipeline

    A shallow embedding of the three source files of the pipeline:

    - [supabase/functions/process_message/index.ts]: [FEATURE_NAMES],
      [severityMap], [extractSeverity], [buildFeatureVector];
    - [booster_min.js]: [weightFor], [predictXGB];
    - [supabase/functions/predict_disease/index.ts]: [scaleInput],
      [softmax] and the request handler.

    JavaScript numbers are IEEE 754 binary64 values and are modelled by
    Rocq's primitive floats; texts are modelled by [string] (8-bit
    characters), with the ASCII reading of [toLowerCase]; arrays are lists
    read with [!!] and written with [<[i:=v]>]. *)

From Stdlib Require Import ZArith Reals Floats Lia Lra Ascii String Sorted.
From stdpp Require Import base list strings.

#[local] Set Warnings "-inexact-float".
#[local] Open Scope Z_scope.

(** ** Strings: the three string methods the extractor calls *)

Module Str.

(** [c.toLowerCase()] on one character: the letters A-Z move to a-z. *)
Definition lower_ascii (c : ascii) : ascii :=
  let n := nat_of_ascii c in
  if ((65 <=? n)%nat && (n <=? 90)%nat)%bool then ascii_of_nat (n + 32) else c.

(** [s.toLowerCase()]. *)
Fixpoint toLowerCase (s : string) : string :=
  match s with
  | EmptyString => EmptyString
  | String c s' => String (lower_ascii c) (toLowerCase s')
  end.

(** [s.includes(key)]: [key] starts at some position of [s]. *)
Fixpoint includes (s key : string) : bool :=
  if String.prefix key s then true
  else match s with
       | EmptyString => false
       | String _ s' => includes s' key
       end.

(** [name.replace(/_/g, " ")]: every underscore becomes a space. *)
Fixpoint replace_underscores (s : string) : string :=
  match s with
  | EmptyString => EmptyString
  | String c s' =>
      String (if Ascii.eqb c "_" then " "%char else c) (replace_underscores s')
  end.

(** [key] occurs in [s] as a substring. *)
Definition occurs (key s : string) : Prop :=
  ∃ pre post, s = pre +:+ key +:+ post.

(** [key] occurs in [s] up to the case of the letters of [s]. *)
Definition occurs_ci (key s : string) : Prop :=
  ∃ pre w post, s = pre +:+ w +:+ post ∧ toLowerCase w = key.

End Str.

(** ** process_message/index.ts *)

Module ProcessMessage.
Import Str.

Definition FEATURE_NAMES : list string :=
  [ "age"; "gender"; "smoker"; "heart_rate"; "blood_pressure";
    "cholesterol_level"; "fever"; "cough"; "fatigue"; "shortness_of_breath";
    "headache"; "runny_nose"; "sore_throat"; "chest_pain"; "body_ache";
    "nausea"; "vomiting"; "diarrhea"; "dizziness"; "chills"; "loss_of_smell";
    "loss_of_taste"; "wheezing"; "rash"; "eye_irritation"; "ear_pain";
    "sweating"; "joint_pain"; "abdominal_pain"; "back_pain"; "blurred_vision";
    "dry_cough"; "wet_cough"; "sinus_pressure"; "sneezing"; "rapid_heartbeat";
    "slow_heartbeat"; "dehydration"; "loss_of_appetite"; "sleep_disturbance";
    "anxiety"; "irritability"; "muscle_spasm"; "skin_redness"; "itchiness";
    "breathing_difficulty" ]%string.

(** The object literal [severityMap]; [Object.entries] lists its string
    keys in the order they were written. *)
Definition severityMap : list (string * Z) :=
  [ ("severe", 3); ("high", 3); ("bad", 3); ("moderate", 2); ("medium", 2);
    ("mild", 1); ("slight", 1) ]%string.

(** The [for ... of] loop of [extractSeverity] over the entries. *)
Fixpoint first_entry (msg : string) (entries : list (string * Z)) : option Z :=
  match entries with
  | [] => None
  | (key, val) :: rest =>
      if includes msg key then Some val else first_entry msg rest
  end.

Definition extractSeverity (msg : string) : Z :=
  let msg := toLowerCase msg in
  match first_entry msg severityMap with
  | Some val => val
  | None => 1
  end.

(** One call of the [forEach] callback of [buildFeatureVector]. *)
Definition visit (msg : string) (severity : Z)
    (vec : list Z) (i : nat) (name : string) : list Z :=
  if (i <? 6)%nat then vec
  else
    let symptom := replace_underscores name in
    if includes msg symptom then <[i := severity]> vec else vec.

(** [names.forEach((name, i) => ...)], the index starting at [i]. *)
Fixpoint forEach_from (msg : string) (severity : Z)
    (i : nat) (names : list string) (vec : list Z) : list Z :=
  match names with
  | [] => vec
  | name :: rest =>
      forEach_from msg severity (S i) rest (visit msg severity vec i name)
  end.

Definition buildFeatureVector (message : string) : list Z :=
  let vec := replicate (length FEATURE_NAMES) 0 in
  let msg := toLowerCase message in
  let vec := <[0%nat := 25]> vec in
  let vec := <[1%nat := 1]> vec in
  let vec := <[2%nat := 0]> vec in
  let vec := <[3%nat := 80]> vec in
  let vec := <[4%nat := 120]> vec in
  let vec := <[5%nat := 180]> vec in
  let severity := extractSeverity msg in
  forEach_from msg severity 0 FEATURE_NAMES vec.

End ProcessMessage.


(** ** JavaScript numbers and arrays of numbers *)

Module JS.

(** A thrown exception, with the text [String(err)] gives. *)
Inductive result (A : Type) : Type :=
  | Ok (a : A)
  | Throw (err : string).
Arguments Ok {A} a.
Arguments Throw {A} err.

(** The values an array entry can hold. *)
Inductive value : Type :=
  | VNumber (x : float)
  | VString (s : string)
  | VBool (b : bool)
  | VNull
  | VUndefined.

(** An integer that a double holds exactly, as that double. *)
Definition of_Z (z : Z) : float :=
  if z <? 0 then (- of_uint63 (Uint63.of_Z (- z)))%float
  else of_uint63 (Uint63.of_Z z).

(** A loop counter or array index. *)
Definition of_index (i : nat) : float := of_Z (Z.of_nat i).

(** The integer part of a finite double, rounded toward zero; 0 for NaN
    and the infinities, as [ToInt32] and [ToUint32] take them. *)
Definition trunc (x : float) : Z :=
  match Prim2SF x with
  | S754_finite s m e =>
      let mag := Z.shiftl (Z.pos m) e in
      if s then - mag else mag
  | _ => 0
  end.

(** [x >>> 0]. *)
Definition ToUint32 (x : float) : Z := trunc x mod 2 ^ 32.

(** The operand conversion of [^]. *)
Definition ToInt32 (x : float) : Z :=
  let u := ToUint32 x in
  if 2 ^ 31 <=? u then u - 2 ^ 32 else u.

(** [x % m] for an integer-valued double [x]; the remainder takes the sign
    of [x] and is exact. *)
Definition rem_int (x : float) (m : Z) : float := of_Z (Z.rem (trunc x) m).

(** [ToBoolean] of a number: 0, -0 and NaN are falsy. *)
Definition truthy (x : float) : bool := negb (is_zero x || is_nan x).

Definition is_pos_zero (x : float) : bool :=
  match classify x with PZero => true | _ => false end.

Definition is_neg_zero (x : float) : bool :=
  match classify x with NZero => true | _ => false end.

(** One step of [Math.max]: NaN wins over everything, +0 over -0. *)
Definition max_step (highest n : float) : float :=
  if (is_nan highest || is_nan n)%bool then nan
  else if (is_pos_zero n && is_neg_zero highest)%bool then n
  else if (highest <? n)%float then n
  else highest.

(** [Math.max(...arr)]; [-Infinity] for no argument. *)
Definition Math_max (arr : list float) : float :=
  foldl max_step neg_infinity arr.

(** [arr.indexOf(x)]: the first index whose entry is [=== x], else -1. *)
Definition indexOf (arr : list float) (x : float) : Z :=
  match list_find (λ y, Is_true (y =? x)%float) arr with
  | Some (i, _) => Z.of_nat i
  | None => -1
  end.

(** [arr.reduce((a, b) => a + b, 0)]. *)
Definition sum (arr : list float) : float :=
  foldl (λ a b, (a + b)%float) 0%float arr.

(** A reference implementation of [Math.exp], which the language leaves
    implementation-approximated: argument reduction by multiples of ln 2
    and a Taylor polynomial.  It closes the examples; the theorems hold
    for every [Math.exp]. *)
Definition exp_poly (r : float) : float :=
  foldr (λ k acc, (1 + r / of_index k * acc)%float) 1%float (seq 1 24).

Definition Math_exp_ref (x : float) : float :=
  if is_nan x then nan
  else if (709.782712893384 <? x)%float then infinity
  else if (x <? -745.1332191019412)%float then 0%float
  else
    let ln2 := 0.6931471805599453%float in
    let k := trunc (x / ln2) in
    let r := (x - of_Z k * ln2)%float in
    Z.ldexp (exp_poly r) k.

End JS.

(** ** booster_min.js *)

Module Booster.
Import JS.

(** The imported [labels.json]: an array of names, or something else. *)
Inductive labels_file : Type :=
  | LabelsArray (names : list string)
  | LabelsOther.

(** The argument of [predictXGB]. *)
Inductive argument : Type :=
  | IsArray (features : list value)
  | NotArray (v : value).

Definition weightFor (labelIdx featIdx : nat) : float :=
  let a := 1610612741%float in
  let b := 805306457%float in
  let seed :=
    Z.lxor (ToInt32 ((of_index labelIdx + 1) * 1315423911)%float)
           (ToInt32 ((of_index featIdx + 1) * 2654435761)%float) in
  let mixed := rem_int (of_Z (ToUint32 (of_Z seed * a + b)%float)) 100000 in
  (mixed / 100000 - 0.5)%float.

(** [typeof features[j] === "number" ? features[j] : 0]. *)
Definition number_or_zero (v : value) : float :=
  match v with
  | VNumber x => x
  | _ => 0%float
  end.

(** The inner loop, from feature index [j] on, with accumulator [s]. *)
Fixpoint accumulate (i j : nat) (features : list value) (s : float) : float :=
  match features with
  | [] => s
  | f :: rest =>
      let w := weightFor i j in
      let v := number_or_zero f in
      accumulate i (S j) rest (s + w * v)%float
  end.

Definition bias (i : nat) : float :=
  ((rem_int (of_index i * 37)%float 7 - 3) * 0.02)%float.

Definition nLabels (labels : labels_file) : nat :=
  match labels with
  | LabelsArray names => length names
  | LabelsOther => 3
  end.

Definition logit (features : list value) (i : nat) : float :=
  let s := accumulate i 0 features 0%float in
  (s + bias i)%float.

Definition predictXGB (labels : labels_file) (features : argument)
    : result (list float) :=
  match features with
  | NotArray _ => Throw "Error: predictXGB expects an array of numbers"
  | IsArray features => Ok (logit features <$> seq 0 (nLabels labels))
  end.

End Booster.


(** ** predict_disease/index.ts *)

Module PredictDisease.
Import JS.

(** The parsed [scaler.json]. *)
Record scaler_file : Type := { mean : list float; std : list float }.

(** [scaler.mean[i]] as the subtraction reads it: a missing entry is
    [undefined], which [-] converts to NaN. *)
Definition mean_at (scaler : scaler_file) (i : nat) : float :=
  default nan (mean scaler !! i).

(** [scaler.std[i] || 1]: a falsy entry (0, -0, NaN, or none) gives 1. *)
Definition std_or_1 (scaler : scaler_file) (i : nat) : float :=
  match std scaler !! i with
  | Some s => if truthy s then s else 1%float
  | None => 1%float
  end.

Definition scaleInput (arr : list float) (scaler : scaler_file) : list float :=
  imap (λ i v, ((v - mean_at scaler i) / std_or_1 scaler i)%float) arr.

(** [prediction] is a label or, when none is found, the index itself. *)
Inductive prediction : Type :=
  | PredLabel (name : string)
  | PredIndex (i : Z).

(** [labels[i]] for an integer [i]; a negative index names no element. *)
Definition label_at (labels : list string) (i : Z) : option string :=
  if i <? 0 then None else labels !! Z.to_nat i.

(** [labels[bestIndex] ?? bestIndex]. *)
Definition select_label (labels : list string) (bestIndex : Z) : prediction :=
  match label_at labels bestIndex with
  | Some name => PredLabel name
  | None => PredIndex bestIndex
  end.

(** [probs.indexOf(Math.max(...probs))]. *)
Definition bestIndex (probs : list float) : Z := indexOf probs (Math_max probs).

(** What [loadModelFiles] resolves to.  The backend is whatever function
    the loaded script defines. *)
Record artifacts : Type := {
  scaler : scaler_file;
  labels : list string;
  predictXGB : list float → result (list float)
}.

(** The field [symptoms] of the parsed request body; its array entries are
    JSON numbers. *)
Inductive symptoms_field : Type :=
  | SymptomsArray (symptoms : list float)
  | SymptomsOther.

Record request : Type := {
  method : string;
  json : result symptoms_field
}.

Inductive body : Type :=
  | BodyText (text : string)
  | BodyError (error : string)
  | BodyResult (pred : prediction) (probabilities : list float).

Record response : Type := Response { status : Z; payload : body }.

Section WithExp.

(** [Math.exp], left to the implementation by the language. *)
Variable Math_exp : float → float.

Definition softmax (arr : list float) : list float :=
  let max := Math_max arr in
  let exps := (λ x, Math_exp (x - max)%float) <$> arr in
  let sum := sum exps in
  (λ v, (v / sum)%float) <$> exps.

(** The request handler; [load] is the outcome of [loadModelFiles]. *)
Definition handler (load : result artifacts) (req : request) : response :=
  if negb (String.eqb (method req) "POST") then
    Response 405 (BodyText "Method Not Allowed")
  else
    match json req with
    | Throw err => Response 500 (BodyError err)
    | Ok SymptomsOther => Response 400 (BodyError "symptoms must be array")
    | Ok (SymptomsArray symptoms) =>
        match load with
        | Throw err => Response 500 (BodyError err)
        | Ok files =>
            let scaled := scaleInput symptoms (scaler files) in
            match predictXGB files scaled with
            | Throw err => Response 500 (BodyError err)
            | Ok logits =>
                let probs := softmax logits in
                let bestIndex := bestIndex probs in
                let prediction := select_label (labels files) bestIndex in
                Response 200 (BodyResult prediction probs)
            end
        end
    end.

End WithExp.

(** The artifacts with the placeholder backend of booster_min.js. *)
Definition placeholder (sc : scaler_file) (names : list string) : artifacts :=
  {| scaler := sc;
     labels := names;
     predictXGB := λ scaled,
       Booster.predictXGB (Booster.LabelsArray names)
                          (Booster.IsArray (VNumber <$> scaled)) |}.

Definition post (symptoms : list float) : request :=
  {| method := "POST"; json := Ok (SymptomsArray symptoms) |}.

End PredictDisease.

(** ** The normalizer over the real numbers *)

Module Ideal.

#[local] Open Scope R_scope.

(** [Math.max(...arr)] for a non-empty array; no entry reads it when the
    array is empty. *)
Definition Rmax_list (arr : list R) : R :=
  match arr with
  | [] => 0
  | x :: rest => foldl Rmax x rest
  end.

Definition Rsum (arr : list R) : R := foldl Rplus 0 arr.

(** [softmax] of predict_disease/index.ts, computed in exact arithmetic. *)
Definition softmax (arr : list R) : list R :=
  let max := Rmax_list arr in
  let exps := (λ x, exp (x - max)) <$> arr in
  let sum := Rsum exps in
  (λ v, v / sum) <$> exps.

End Ideal.

(** ** An order on the doubles *)

Module FloatOrder.

(** A key that orders the doubles other than NaN: the class first (the
    infinities outside, the zeros in the middle), then exponent and
    mantissa, both negated below zero. *)
Definition key (x : spec_float) : Z * Z * Z :=
  match x with
  | S754_nan => (0, 0, 0)
  | S754_zero _ => (0, 0, 0)
  | S754_infinity s => (if s then -2 else 2, 0, 0)
  | S754_finite s m e =>
      if s then (-1, - e, - Z.pos m) else (1, e, Z.pos m)
  end%Z.

Definition lex_lt (a b : Z * Z * Z) : Prop :=
  (a.1.1 < b.1.1
   ∨ (a.1.1 = b.1.1 ∧ (a.1.2 < b.1.2 ∨ (a.1.2 = b.1.2 ∧ a.2 < b.2))))%Z.

Definition lex_eq (a b : Z * Z * Z) : Prop :=
  (a.1.1 = b.1.1 ∧ a.1.2 = b.1.2 ∧ a.2 = b.2)%Z.

(** The key of a double. *)
Definition fkey (x : float) : Z * Z * Z := key (Prim2SF x).

End FloatOrder.

(** ** Signs of doubles, and checking a range of integers *)

Module FloatSign.

(** The double is NaN or carries the sign bit 0. *)
Definition unsigned_or_nan (x : spec_float) : Prop :=
  match x with
  | S754_zero s | S754_infinity s | S754_finite s _ _ => s = false
  | S754_nan => True
  end.

(** One step of a sweep over 0, 1, 2, ...: the next integer, and whether
    the test held so far. *)
Definition sweep_step (P : Z → bool) (st : Z * bool) : Z * bool :=
  (st.1 + 1, st.2 && P st.1).

(** The test [P] holds of 0, ..., n - 1. *)
Definition sweep (P : Z → bool) (n : positive) : bool :=
  (Pos.iter (sweep_step P) (0, true) n).2.

(** Two doubles that are equal, or both zeros of either sign. *)
Definition same_or_zeros (x y : float) : Prop :=
  x = y ∨ ∃ s s', Prim2SF x = S754_zero s ∧ Prim2SF y = S754_zero s'.

End FloatSign.

(** ** The assistant endpoint (second part of predict_disease/index.ts) *)

Module Assistant.
Import Str JS.

(** A record of [health_records]: its type, its value (a number, or none
    when the column is null) and its timestamp. *)
Record row : Type := {
  data_type : string;
  value : option float;
  recorded_at : option string
}.

Record insights : Type := {
  averageSteps : float;
  averageHeartRate : float;
  averageSleep : float;
  averageSpo2 : float;
  lastRecorded : option string
}.

(** [rows.reduce((s, r) => s + (r.value ?? 0), 0)]. *)
Definition total (rows : list row) : float :=
  foldl (λ s r, (s + default 0 (value r))%float) 0%float rows.

(** [sel.length > 0 ? total / sel.length : 0]. *)
Definition mean_of (sel : list row) : float :=
  if (0 <? length sel)%nat then (total sel / of_index (length sel))%float
  else 0%float.

Definition calculateHealthInsights (rows : list row) : insights :=
  let out := {| averageSteps := 0; averageHeartRate := 0; averageSleep := 0;
                averageSpo2 := 0; lastRecorded := None |} in
  match rows with
  | [] => out
  | first :: _ =>
      let steps := filter (λ x, data_type x = "steps"%string) rows in
      let hr := filter (λ x, data_type x = "heart_rate"%string) rows in
      let sleep := filter (λ x, data_type x = "sleep_session"%string) rows in
      let spo2 := filter (λ x, data_type x = "spo2"%string) rows in
      {| averageSteps := mean_of steps;
         averageHeartRate := mean_of hr;
         averageSleep := mean_of sleep;
         averageSpo2 := mean_of spo2;
         lastRecorded := recorded_at first |}
  end.

(** A piece of the message: literal text, or the text the language gives
    for [${Math.round(x)}]. *)
Inductive part : Type :=
  | Text (s : string)
  | Rounded (x : float).

Record chat_message : Type := { role : string; content : string }.

Record reply : Type := { message : list part; suggestions : list string }.

Definition newline : string := String (ascii_of_nat 10) EmptyString.

Definition disclaimer : string :=
  newline +:+ newline +:+
  "Remember, this is general information onlyâ€”not a medical diagnosis.".

Definition generateSafeResponse
    (prompt : string) (history : list chat_message) (ins : insights) : reply :=
  let txt := toLowerCase prompt in
  let '(message, suggestions) :=
    if (includes txt "fever" || includes txt "cough" || includes txt "pain")%bool
    then
      ([Text "I can't diagnose conditions, but I can help interpret your recent health data."],
       ["Review health trends"; "Consult a healthcare provider"]%string)
    else if includes txt "steps" then
      ([Text "You're averaging "; Rounded (averageSteps ins);
        Text " steps daily. Staying active is great!"],
       ["Show weekly activity"]%string)
    else if includes txt "heart" then
      ([Text "Your average heart rate is "; Rounded (averageHeartRate ins);
        Text " bpm."],
       ["View heart rate history"]%string)
    else
      ([Text "How can I assist you with your symptoms, data, or wellness insights?"],
       [])
  in
  {| message := message ++ [Text disclaimer]; suggestions := suggestions |}.

(** [s.replace(pat, rep)] for a plain string [pat]: the first occurrence
    only. *)
Fixpoint replace_first (pat rep s : string) : string :=
  if String.prefix pat s then rep +:+ String.substring (String.length pat)
                                        (String.length s - String.length pat) s
  else match s with
       | EmptyString => EmptyString
       | String c s' => String c (replace_first pat rep s')
       end.

(** White space among the characters a header value can hold: TAB, LF,
    VT, FF, CR, SP and NBSP. *)
Definition is_space (c : ascii) : bool :=
  let n := nat_of_ascii c in
  ((9 <=? n) && (n <=? 13) || (n =? 32) || (n =? 160))%nat%bool.

Fixpoint trim_start (s : string) : string :=
  match s with
  | EmptyString => EmptyString
  | String c s' => if is_space c then trim_start s' else s
  end.

Fixpoint trim_end (s : string) : string :=
  match s with
  | EmptyString => EmptyString
  | String c s' =>
      match trim_end s' with
      | EmptyString => if is_space c then EmptyString else String c EmptyString
      | t => String c t
      end
  end.

(** [s.trim()]. *)
Definition trim (s : string) : string := trim_end (trim_start s).

(** [authHeader.replace("Bearer ", "").trim()]. *)
Definition token_of (authHeader : string) : string :=
  trim (replace_first "Bearer " EmptyString authHeader).

Definition corsHeaders : list (string * string) :=
  [ ("Access-Control-Allow-Origin", "*");
    ("Access-Control-Allow-Headers",
     "authorization, x-client-info, apikey, content-type");
    ("Access-Control-Allow-Methods", "POST, GET, OPTIONS") ]%string.

(** What [supabase.auth.getUser] resolves to: the user's id, if any, and
    whether an error came with it. *)
Record auth_result : Type := { user : option string; userError : bool }.

(** The services the handler calls.  [createClient] stands for reading
    the two environment variables and building the client; [since] is the
    ISO date seven days before the request. *)
Record services : Type := {
  createClient : result unit;
  getUser : string → result auth_result;
  since : string;
  select_health : string → string → result (option (list row))
}.

(** The [prompt] of the parsed body, after the default "" for a missing
    one. *)
Inductive prompt_field : Type :=
  | PromptString (prompt : string)
  | PromptOther.

Record chat_request : Type := {
  c_method : string;
  authorization : option string;
  c_json : result (prompt_field * list chat_message)
}.

Inductive chat_body : Type :=
  | ChatText (text : string)
  | ChatError (error : string)
  | ChatResponse (assistant_response : list part)
                 (suggested_actions : list string)
                 (insights_from_data : insights).

Record chat_response : Type := {
  c_status : Z;
  c_headers : list (string * string);
  c_body : chat_body
}.

(** A call to a service, in the order made. *)
Inductive call : Type :=
  | CallGetUser (token : string)
  | CallSelect (user_id since : string).

Definition internal_error : chat_response :=
  {| c_status := 500; c_headers := corsHeaders;
     c_body := ChatError "internal error" |}.

Definition unauthorized (error : string) : chat_response :=
  {| c_status := 401; c_headers := corsHeaders; c_body := ChatError error |}.

(** The handler: the response and the calls made to the services. *)
Definition chat_handler (sv : services) (req : chat_request)
    : chat_response * list call :=
  if String.eqb (c_method req) "OPTIONS" then
    ({| c_status := 200; c_headers := corsHeaders; c_body := ChatText "ok" |},
     [])
  else
    match createClient sv with
    | Throw _ => (internal_error, [])
    | Ok _ =>
        match authorization req with
        | None | Some EmptyString => (unauthorized "Missing authorization", [])
        | Some authHeader =>
            let token := token_of authHeader in
            match getUser sv token with
            | Throw _ => (internal_error, [CallGetUser token])
            | Ok {| user := None |} | Ok {| userError := true |} =>
                (unauthorized "Invalid user", [CallGetUser token])
            | Ok {| user := Some id |} =>
                match c_json req with
                | Throw _ => (internal_error, [CallGetUser token])
                | Ok (prompt, history) =>
                    let calls := [CallGetUser token; CallSelect id (since sv)] in
                    match select_health sv id (since sv) with
                    | Throw _ => (internal_error, calls)
                    | Ok healthData =>
                        let ins :=
                          calculateHealthInsights (default [] healthData) in
                        match prompt with
                        | PromptOther => (internal_error, calls)
                        | PromptString prompt =>
                            let response :=
                              generateSafeResponse prompt history ins in
                            ({| c_status := 200;
                                c_headers :=
                                  corsHeaders
                                  ++ [("Content-Type", "application/json")]%string;
                                c_body :=
                                  ChatResponse (message response)
                                               (suggestions response) ins |},
                             calls)
                        end
                    end
                end
            end
        end
    end.

End Assistant.

(** ** Words for the properties of the assistant *)

Module AssistantSpec.
Import Str Assistant.

(** The prompt names fever, cough or pain, in any case. *)
Definition symptom_asked (prompt : string) : Prop :=
  occurs_ci "fever" prompt ∨ occurs_ci "cough" prompt ∨ occurs_ci "pain" prompt.

(** The piece quotes a number. *)
Definition is_figure (p : part) : bool :=
  match p with
  | Rounded _ => true
  | Text _ => false
  end.

End AssistantSpec.

(** * Properties *)

(** ** Strings *)

Module StrFacts.
Import Str.

Lemma app_nil (b : string) : EmptyString +:+ b = b.
Proof. reflexivity. Qed.

Lemma app_cons (c : ascii) (a b : string) :
  String c a +:+ b = String c (a +:+ b).
Proof. reflexivity. Qed.

Lemma app_assoc (a b c : string) : (a +:+ b) +:+ c = a +:+ b +:+ c.
Proof.
  induction a as [|x a IH]; [done|]. rewrite !app_cons. by rewrite IH.
Qed.

Lemma prefix_app (key s : string) :
  String.prefix key s = true ↔ ∃ post, s = key +:+ post.
Proof.
  revert s; induction key as [|c key IH]; intros [|d s]; simpl.
  - split; [intros _; by exists EmptyString | done].
  - split; [intros _; by exists (String d s) | done].
  - split; [done | intros [post H]; discriminate].
  - destruct (ascii_dec c d) as [->|Hne].
    + rewrite IH. split; intros [post H]; exists post;
        rewrite app_cons in *; congruence.
    + split; [done | intros [post H]; rewrite app_cons in H; congruence].
Qed.

Lemma includes_occurs (s key : string) :
  includes s key = true ↔ occurs key s.
Proof.
  unfold occurs. induction s as [|c s IH].
  - change (includes EmptyString key) with (if String.prefix key EmptyString then true else false).
    destruct (String.prefix key EmptyString) eqn:Hp.
    + apply prefix_app in Hp as [post Hp]. split; [|done].
      intros _. exists EmptyString, post. by rewrite app_nil.
    + split; [done|]. intros [pre [post H]].
      destruct pre; [|discriminate]. rewrite app_nil in H.
      assert (String.prefix key EmptyString = true) by (apply prefix_app; eauto).
      congruence.
  - change (includes (String c s) key)
      with (if String.prefix key (String c s) then true else includes s key).
    destruct (String.prefix key (String c s)) eqn:Hp.
    + apply prefix_app in Hp as [post Hp]. split; [|done].
      intros _. exists EmptyString, post. by rewrite app_nil.
    + rewrite IH. split.
      * intros (pre & post & ->). by exists (String c pre), post.
      * intros (pre & post & H). destruct pre as [|d pre].
        -- rewrite app_nil in H.
           assert (String.prefix key (String c s) = true)
             by (apply prefix_app; eauto).
           congruence.
        -- rewrite app_cons in H. injection H as -> ->. eauto.
Qed.

Lemma includes_false (s key : string) :
  includes s key = false ↔ ¬ occurs key s.
Proof.
  rewrite <- includes_occurs. destruct (includes s key); split; congruence.
Qed.

Lemma lower_ascii_idem (c : ascii) :
  lower_ascii (lower_ascii c) = lower_ascii c.
Proof. destruct c as [[] [] [] [] [] [] [] []]; reflexivity. Qed.

Lemma toLowerCase_idem (s : string) :
  toLowerCase (toLowerCase s) = toLowerCase s.
Proof.
  induction s as [|c s IH]; simpl; [done|].
  by rewrite lower_ascii_idem, IH.
Qed.

Lemma toLowerCase_app (a b : string) :
  toLowerCase (a +:+ b) = toLowerCase a +:+ toLowerCase b.
Proof.
  induction a as [|c a IH]; [done|].
  rewrite !app_cons. simpl. by rewrite IH.
Qed.

Lemma toLowerCase_split (s a b : string) :
  toLowerCase s = a +:+ b →
  ∃ s1 s2, s = s1 +:+ s2 ∧ toLowerCase s1 = a ∧ toLowerCase s2 = b.
Proof.
  revert s; induction a as [|c a IH]; intros s H.
  - by exists EmptyString, s.
  - rewrite app_cons in H. destruct s as [|d s]; simpl in H; [discriminate|].
    injection H as Hc H. destruct (IH _ H) as (s1 & s2 & -> & <- & <-).
    exists (String d s1), s2. simpl. by rewrite Hc.
Qed.

(** A key found in the lower-cased text is a key that occurs in the text
    up to case. *)
Lemma includes_lower_ci (msg key : string) :
  includes (toLowerCase msg) key = true ↔ occurs_ci key msg.
Proof.
  rewrite includes_occurs. unfold occurs, occurs_ci. split.
  - intros (pre & post & H).
    apply toLowerCase_split in H as (s1 & s23 & -> & <- & H).
    apply toLowerCase_split in H as (s2 & s3 & -> & <- & <-).
    by exists s1, s2, s3.
  - intros (pre & w & post & -> & <-).
    exists (toLowerCase pre), (toLowerCase post).
    by rewrite !toLowerCase_app.
Qed.

End StrFacts.

(** ** The feature extractor *)

Module ExtractorFacts.
Import Str StrFacts ProcessMessage.

Lemma visit_length msg sev vec i name :
  length (visit msg sev vec i name) = length vec.
Proof.
  unfold visit. destruct (i <? 6)%nat; [done|].
  destruct (includes _ _); [apply length_insert | done].
Qed.

Lemma forEach_from_length msg sev names :
  ∀ i vec, length (forEach_from msg sev i names vec) = length vec.
Proof.
  induction names as [|name names IH]; intros i vec; simpl; [done|].
  by rewrite IH, visit_length.
Qed.

(** The callback at index [i] writes slot [i] only. *)
Lemma visit_other msg sev vec i name (k : nat) :
  k ≠ i → visit msg sev vec i name !! k = vec !! k.
Proof.
  intros Hk. unfold visit. destruct (i <? 6)%nat; [done|].
  destruct (includes _ _); [|done]. by rewrite list_lookup_insert_ne.
Qed.

Lemma visit_vital msg sev vec i name (k : nat) :
  (k < 6)%nat → visit msg sev vec i name !! k = vec !! k.
Proof.
  intros Hk. unfold visit. destruct (i <? 6)%nat eqn:Hi; [done|].
  apply Nat.ltb_ge in Hi. destruct (includes _ _); [|done].
  rewrite list_lookup_insert_ne; [done | lia].
Qed.

Lemma forEach_from_vital msg sev names (k : nat) :
  (k < 6)%nat →
  ∀ i vec, forEach_from msg sev i names vec !! k = vec !! k.
Proof.
  intros Hk. induction names as [|name names IH]; intros i vec; simpl; [done|].
  by rewrite IH, visit_vital.
Qed.

Lemma forEach_from_before msg sev names (k : nat) :
  ∀ i vec, (k < i)%nat → forEach_from msg sev i names vec !! k = vec !! k.
Proof.
  induction names as [|name names IH]; intros i vec Hk; simpl; [done|].
  rewrite IH by lia. apply visit_other. lia.
Qed.

(** A symptom slot ends up with the severity or keeps its old entry. *)
Lemma forEach_from_symptom msg sev names (k : nat) :
  ∀ i vec name old,
    (i ≤ k)%nat → (6 ≤ k)%nat →
    names !! (k - i)%nat = Some name → vec !! k = Some old →
    forEach_from msg sev i names vec !! k =
      Some (if includes msg (replace_underscores name) then sev else old).
Proof.
  induction names as [|n names IH]; intros i vec name old Hik H6 Hn Hv;
    simpl; [done|].
  destruct (decide (k = i)) as [->|Hne].
  - rewrite Nat.sub_diag in Hn. simpl in Hn. injection Hn as ->.
    rewrite forEach_from_before by lia. unfold visit.
    destruct (Nat.ltb_spec i 6); [lia|].
    destruct (includes _ _); [|done].
    apply list_lookup_insert_eq. by eapply lookup_lt_Some.
  - replace (k - i)%nat with (S (k - S i)) in Hn by lia. simpl in Hn.
    apply IH with (old := old); [lia | done | done |].
    by rewrite visit_other.
Qed.

Lemma extractSeverity_lower (message : string) :
  extractSeverity (toLowerCase message) = extractSeverity message.
Proof. unfold extractSeverity. by rewrite toLowerCase_idem. Qed.

(** The loop of [extractSeverity] returns the value of the first entry
    whose key is found. *)
Lemma first_entry_Some msg entries val :
  first_entry msg entries = Some val ↔
  ∃ before key after,
    entries = before ++ (key, val) :: after ∧
    includes msg key = true ∧
    Forall (λ e, includes msg e.1 = false) before.
Proof.
  induction entries as [|[k v] entries IH]; simpl.
  - split; [done|]. intros (b & ? & ? & H & _). by destruct b.
  - destruct (includes msg k) eqn:Hk.
    + split.
      * intros [= ->]. by exists [], k, entries.
      * intros ([|[k' v'] b] & key & after & H & Hin & Hb).
        -- by injection H as -> -> ->.
        -- injection H as -> -> ->. apply Forall_cons in Hb as [Hb _].
           simpl in Hb. congruence.
    + rewrite IH. split.
      * intros (b & key & after & -> & Hin & Hb).
        exists ((k, v) :: b), key, after. repeat split; [done|].
        by constructor.
      * intros ([|[k' v'] b] & key & after & H & Hin & Hb).
        -- injection H as -> -> ->. congruence.
        -- injection H as -> -> ->. apply Forall_cons in Hb as [_ Hb].
           by exists b, key, after.
Qed.

Lemma first_entry_None msg entries :
  first_entry msg entries = None ↔
  Forall (λ e, includes msg e.1 = false) entries.
Proof.
  induction entries as [|[k v] entries IH]; simpl.
  - split; [by constructor | done].
  - destruct (includes msg k) eqn:Hk.
    + split; [done|]. intros H. apply Forall_cons in H as [H _].
      simpl in H. congruence.
    + rewrite IH. split; [by constructor|].
      intros H. by apply Forall_cons in H as [_ H].
Qed.

End ExtractorFacts.

(** ** Claims on the feature extractor *)

Module ExtractorClaims.
Import Str StrFacts ProcessMessage ExtractorFacts.


(** C1: for every text the extractor returns exactly 46 numbers, and slots
    0 to 5 hold the vital defaults age=25, gender=1, smoker=0,
    heart_rate=80, blood_pressure=120, cholesterol_level=180, whatever the
    text says. *)
Theorem buildFeatureVector_length_and_vitals (message : string) :
  length (buildFeatureVector message) = 46%nat
  ∧ zip (take 6 FEATURE_NAMES) (take 6 (buildFeatureVector message))
    = [ ("age", 25); ("gender", 1); ("smoker", 0); ("heart_rate", 80);
        ("blood_pressure", 120); ("cholesterol_level", 180) ]%string.
Proof.
  assert (Hlen : length (buildFeatureVector message) = 46%nat).
  { unfold buildFeatureVector. rewrite forEach_from_length.
    by rewrite !length_insert, length_replicate. }
  split; [done|].
  assert (Hv : ∀ k : nat, (k < 6)%nat →
            buildFeatureVector message !! k
            = [25; 1; 0; 80; 120; 180] !! k).
  { intros k Hk. unfold buildFeatureVector.
    rewrite forEach_from_vital by done.
    do 6 (destruct k as [|k]; [reflexivity|]). lia. }
  assert (Ht : take 6 (buildFeatureVector message) = [25; 1; 0; 80; 120; 180]).
  { apply list_eq. intros k. destruct (decide (k < 6)%nat) as [Hk|Hk].
    - rewrite lookup_take_lt by done. by apply Hv.
    - rewrite lookup_take_ge by lia. symmetry. apply lookup_ge_None_2.
      simpl. lia. }
  by rewrite Ht.
Qed.

(** C2: the severity extractor returns the level of the first keyword, in
    the order the lexicon declares them, that occurs in the message up to
    case, and 1 when no keyword occurs; a message with both "mild" and
    "severe" gets 3, wherever the two words stand. *)
Theorem extractSeverity_first_keyword (msg : string) :
  (∀ before key val after,
      severityMap = before ++ (key, val) :: after →
      occurs_ci key msg →
      Forall (λ e, ¬ occurs_ci e.1 msg) before →
      extractSeverity msg = val)
  ∧ (Forall (λ e, ¬ occurs_ci e.1 msg) severityMap → extractSeverity msg = 1)
  ∧ (occurs_ci "mild" msg → occurs_ci "severe" msg → extractSeverity msg = 3).
Proof.
  assert (Hfirst : ∀ before key val after,
      severityMap = before ++ (key, val) :: after →
      occurs_ci key msg →
      Forall (λ e, ¬ occurs_ci e.1 msg) before →
      extractSeverity msg = val).
  { intros before key val after Hmap Hkey Hbefore. unfold extractSeverity.
    assert (H : first_entry (toLowerCase msg) severityMap = Some val).
    { apply first_entry_Some. exists before, key, after.
      split; [done|]. split; [by apply includes_lower_ci|].
      eapply Forall_impl; [exact Hbefore|]. intros e He. simpl in He.
      destruct (includes (toLowerCase msg) e.1) eqn:Hin; [|done].
      by apply includes_lower_ci in Hin. }
    by rewrite H. }
  split; [exact Hfirst|]. split.
  - intros Hnone. unfold extractSeverity.
    assert (H : first_entry (toLowerCase msg) severityMap = None).
    { apply first_entry_None. eapply Forall_impl; [exact Hnone|].
      intros e He. simpl in He.
      destruct (includes (toLowerCase msg) e.1) eqn:Hin; [|done].
      by apply includes_lower_ci in Hin. }
    by rewrite H.
  - intros _ Hsevere.
    apply (Hfirst [] "severe"%string 3 (tail severityMap));
      [reflexivity | done | constructor].
Qed.

Lemma extractSeverity_first_keyword_witness :
  extractSeverity "a Mild cough, then SEVERE chills" = 3
  ∧ extractSeverity "my head is heavy, the fever is High" = 3
  ∧ extractSeverity "no words of degree here" = 1.
Proof.
  split; [|split].
  - apply (extractSeverity_first_keyword "a Mild cough, then SEVERE chills").
    + apply includes_lower_ci. reflexivity.
    + apply includes_lower_ci. reflexivity.
  - apply (proj1 (extractSeverity_first_keyword
                    "my head is heavy, the fever is High")
             [("severe", 3)]%string "high"%string 3
             (drop 2 severityMap)).
    + reflexivity.
    + apply includes_lower_ci. reflexivity.
    + repeat constructor. simpl. rewrite <- includes_lower_ci. by vm_compute.
  - apply (extractSeverity_first_keyword "no words of degree here").
    repeat constructor; simpl; rewrite <- includes_lower_ci; by vm_compute.
Defined.




(** The text of the end-to-end example of the specification: one severity
    for the whole message. *)
Example severe_headache_mild_cough :
  buildFeatureVector "I have a severe headache and mild cough"
  = [25; 1; 0; 80; 120; 180; 0; 3; 0; 0; 3; 0; 0; 0; 0; 0; 0; 0; 0; 0; 0; 0;
     0; 0; 0; 0; 0; 0; 0; 0; 0; 0; 0; 0; 0; 0; 0; 0; 0; 0; 0; 0; 0; 0; 0; 0].
Proof. reflexivity. Qed.

End ExtractorClaims.

(** ** Doubles: NaN and the order *)

Module FloatFacts.
Import JS FloatOrder.

#[local] Open Scope float_scope.

Lemma Prim2SF_nan : Prim2SF nan = S754_nan.
Proof. reflexivity. Qed.

Lemma SFcompare_refl (x : spec_float) :
  x ≠ S754_nan → SFcompare x x = Some Eq.
Proof.
  destruct x as [s|s| |s m e]; intros H; simpl; try done.
  - by destruct s.
  - rewrite Z.compare_refl, Pos.compare_cont_refl. by destruct s.
Qed.

Lemma is_nan_Prim2SF (x : float) :
  is_nan x = true ↔ Prim2SF x = S754_nan.
Proof.
  unfold is_nan. rewrite FloatAxioms.eqb_spec. unfold SFeqb.
  destruct (Prim2SF x) as [s|s| |s m e] eqn:E;
    try (rewrite SFcompare_refl by done); simpl; split; done.
Qed.

Lemma is_nan_eq (x : float) : is_nan x = true ↔ x = nan.
Proof.
  rewrite is_nan_Prim2SF. split.
  - intros H. apply Prim2SF_inj. by rewrite H.
  - by intros ->.
Qed.

Lemma not_nan_Prim2SF (x : float) :
  is_nan x = false ↔ Prim2SF x ≠ S754_nan.
Proof.
  rewrite <- is_nan_Prim2SF. destruct (is_nan x); split; congruence.
Qed.

Lemma sub_nan_r (x : float) : x - nan = nan.
Proof.
  apply Prim2SF_inj. rewrite sub_spec, Prim2SF_nan.
  by destruct (Prim2SF x) as [?|?| |? ? ?].
Qed.

Lemma div_nan_l (y : float) : nan / y = nan.
Proof.
  apply Prim2SF_inj. rewrite div_spec, Prim2SF_nan. reflexivity.
Qed.

Lemma eqb_nan_r (x : float) : (x =? nan) = false.
Proof.
  rewrite FloatAxioms.eqb_spec, Prim2SF_nan. unfold SFeqb.
  by destruct (Prim2SF x) as [?|?| |? ? ?].
Qed.

Lemma SFcompare_key (x y : spec_float) :
  x ≠ S754_nan → y ≠ S754_nan →
  ∃ c, SFcompare x y = Some c ∧
       match c with
       | Lt => lex_lt (key x) (key y)
       | Eq => lex_eq (key x) (key y)
       | Gt => lex_lt (key y) (key x)
       end.
Proof.
  intros Hx Hy. unfold lex_lt, lex_eq.
  destruct x as [sx|sx| |sx mx ex], y as [sy|sy| |sy my ey]; try done;
    simpl; try (destruct sx); try (destruct sy);
    try (eexists; split; [reflexivity|]; simpl; lia).
  - destruct (Z.compare_spec ex ey) as [->|Hlt|Hgt].
    + change (Pos.compare_cont Eq mx my) with (Pos.compare mx my).
      destruct (Pos.compare_spec mx my) as [->|Hm|Hm];
        eexists; (split; [reflexivity|]); simpl; lia.
    + eexists; split; [reflexivity|]; simpl; lia.
    + eexists; split; [reflexivity|]; simpl; lia.
  - destruct (Z.compare_spec ex ey) as [->|Hlt|Hgt].
    + change (Pos.compare_cont Eq mx my) with (Pos.compare mx my).
      destruct (Pos.compare_spec mx my) as [->|Hm|Hm];
        eexists; (split; [reflexivity|]); simpl; lia.
    + eexists; split; [reflexivity|]; simpl; lia.
    + eexists; split; [reflexivity|]; simpl; lia.
Qed.

Lemma ltb_key (x y : float) :
  is_nan x = false → is_nan y = false →
  (x <? y) = true ↔ lex_lt (fkey x) (fkey y).
Proof.
  intros Hx%not_nan_Prim2SF Hy%not_nan_Prim2SF.
  rewrite FloatAxioms.ltb_spec. unfold SFltb, fkey.
  destruct (SFcompare_key _ _ Hx Hy) as (c & -> & Hc).
  unfold lex_lt, lex_eq in *. destruct c; split; (done || lia).
Qed.

Lemma ltb_false_key (x y : float) :
  is_nan x = false → is_nan y = false →
  (x <? y) = false ↔ ¬ lex_lt (fkey x) (fkey y).
Proof.
  intros Hx Hy. rewrite <- (ltb_key x y Hx Hy).
  destruct (x <? y); split; congruence.
Qed.

Lemma leb_key (x y : float) :
  is_nan x = false → is_nan y = false →
  (x <=? y) = true ↔ ¬ lex_lt (fkey y) (fkey x).
Proof.
  intros Hx%not_nan_Prim2SF Hy%not_nan_Prim2SF.
  rewrite FloatAxioms.leb_spec. unfold SFleb, fkey.
  destruct (SFcompare_key _ _ Hx Hy) as (c & -> & Hc).
  unfold lex_lt, lex_eq in *. destruct c; split; (done || lia).
Qed.

Lemma eqb_key (x y : float) :
  is_nan x = false → is_nan y = false →
  (x =? y) = true ↔ lex_eq (fkey x) (fkey y).
Proof.
  intros Hx%not_nan_Prim2SF Hy%not_nan_Prim2SF.
  rewrite FloatAxioms.eqb_spec. unfold SFeqb, fkey.
  destruct (SFcompare_key _ _ Hx Hy) as (c & -> & Hc).
  unfold lex_lt, lex_eq in *. destruct c; split; (done || lia).
Qed.

Lemma eqb_refl (x : float) : is_nan x = false → (x =? x) = true.
Proof. unfold is_nan. by destruct (x =? x). Qed.

Lemma classify_pos_zero (x : float) :
  is_pos_zero x = true → Prim2SF x = S754_zero false.
Proof.
  unfold is_pos_zero. rewrite classify_spec. unfold SF64classify.
  destruct (Prim2SF x) as [[]|[]| |[] m e]; cbv [SFclassify]; try done;
    by destruct (Z.eqb _ _).
Qed.

Lemma classify_neg_zero (x : float) :
  is_neg_zero x = true → Prim2SF x = S754_zero true.
Proof.
  unfold is_neg_zero. rewrite classify_spec. unfold SF64classify.
  destruct (Prim2SF x) as [[]|[]| |[] m e]; cbv [SFclassify]; try done;
    by destruct (Z.eqb _ _).
Qed.

End FloatFacts.

(** ** [Math.max] and [indexOf] *)

Module SelectionFacts.
Import JS FloatOrder FloatFacts PredictDisease.

#[local] Open Scope float_scope.

Lemma max_step_nan (h n : float) :
  is_nan h = true ∨ is_nan n = true → max_step h n = nan.
Proof.
  unfold max_step. intros [->| ->]; [done|]. by rewrite orb_true_r.
Qed.

Lemma foldl_max_step_nan (arr : list float) : foldl max_step nan arr = nan.
Proof.
  induction arr as [|x arr IH]; simpl; [done|].
  by rewrite max_step_nan by (by left).
Qed.

(** One NaN among the arguments makes [Math.max] NaN. *)
Lemma Math_max_nan (arr : list float) :
  Exists (λ x, is_nan x = true) arr → Math_max arr = nan.
Proof.
  unfold Math_max. generalize neg_infinity.
  induction arr as [|x arr IH]; intros h Hex; simpl.
  - inversion Hex.
  - apply Exists_cons in Hex as [Hx|Hex].
    + rewrite max_step_nan by (by right). apply foldl_max_step_nan.
    + by apply IH.
Qed.

(** NaN is [===] to nothing, so [indexOf] never finds it. *)
Lemma indexOf_nan (arr : list float) : indexOf arr nan = (-1)%Z.
Proof.
  unfold indexOf.
  assert (H : list_find (λ y, Is_true (y =? nan)) arr = None).
  { apply list_find_None. apply Forall_forall. intros y _.
    rewrite eqb_nan_r. by intros []. }
  by rewrite H.
Qed.

Lemma max_step_spec (h n : float) :
  is_nan h = false → is_nan n = false →
  is_nan (max_step h n) = false
  ∧ (max_step h n = h ∨ max_step h n = n)
  ∧ ¬ lex_lt (fkey (max_step h n)) (fkey h)
  ∧ ¬ lex_lt (fkey (max_step h n)) (fkey n).
Proof.
  intros Hh Hn. unfold max_step. rewrite Hh, Hn. simpl.
  destruct (is_pos_zero n && is_neg_zero h)%bool eqn:Hz.
  - apply andb_true_iff in Hz as [Hp%classify_pos_zero Hm%classify_neg_zero].
    repeat split; [done | by right | |];
      unfold fkey, lex_lt; rewrite ?Hp, ?Hm; simpl; lia.
  - destruct (h <? n) eqn:Hlt.
    + apply ltb_key in Hlt; [|done..].
      repeat split; [done | by right | |]; unfold lex_lt in *; lia.
    + apply ltb_false_key in Hlt; [|done..].
      repeat split; [done | by left | |]; unfold lex_lt in *; lia.
Qed.

Lemma foldl_max_step_spec (arr : list float) :
  ∀ h, is_nan h = false → Forall (λ x, is_nan x = false) arr →
    is_nan (foldl max_step h arr) = false
    ∧ (foldl max_step h arr = h ∨ foldl max_step h arr ∈ arr)
    ∧ ¬ lex_lt (fkey (foldl max_step h arr)) (fkey h)
    ∧ Forall (λ q, ¬ lex_lt (fkey (foldl max_step h arr)) (fkey q)) arr.
Proof.
  induction arr as [|x arr IH]; intros h Hh Harr; simpl.
  - repeat split; [done | by left | unfold lex_lt; lia | constructor].
  - apply Forall_cons in Harr as [Hx Harr].
    destruct (max_step_spec h x Hh Hx) as (Hs & Hsel & Hsh & Hsx).
    destruct (IH (max_step h x) Hs Harr) as (Hr & Hin & Hrs & Hall).
    repeat split; [done | | |].
    + destruct Hin as [->|Hin]; [|right; by constructor].
      destruct Hsel as [->| ->]; [by left | right; constructor].
    + unfold lex_lt in *. lia.
    + constructor; [unfold lex_lt in *; lia | done].
Qed.

(** Nothing lies below [-Infinity]. *)
Lemma key_bottom (x : spec_float) :
  x ≠ S754_nan →
  ¬ lex_lt (key (S754_infinity true)) (key x) →
  lex_eq (key x) (key (S754_infinity true)).
Proof.
  unfold lex_lt, lex_eq.
  destruct x as [s|[]| |[] m e]; simpl; intros Hx H; (done || lia).
Qed.

(** For a non-empty array without NaN, [Math.max] is a bound of all the
    entries and is [===] to one of them. *)
Lemma Math_max_spec (arr : list float) :
  arr ≠ [] → Forall (λ x, is_nan x = false) arr →
  is_nan (Math_max arr) = false
  ∧ Forall (λ q, ¬ lex_lt (fkey (Math_max arr)) (fkey q)) arr
  ∧ ∃ p, p ∈ arr ∧ (p =? Math_max arr) = true.
Proof.
  intros Hne Harr. unfold Math_max.
  destruct (foldl_max_step_spec arr neg_infinity eq_refl Harr)
    as (Hr & Hin & _ & Hall).
  split; [done|]. split; [done|].
  destruct Hin as [Heq|Hin].
  - destruct arr as [|x arr]; [done|]. exists x. split; [constructor|].
    rewrite Heq in *. apply Forall_cons in Hall as [Hx _].
    apply Forall_cons in Harr as [Hnx _].
    apply eqb_key; [done..|]. unfold fkey in *.
    apply key_bottom; [by apply not_nan_Prim2SF | exact Hx].
  - eexists. split; [exact Hin|]. by apply eqb_refl.
Qed.

(** [indexOf] returns the first position of an entry [===] to [x]. *)
Lemma indexOf_found (arr : list float) (x : float) (i : nat) :
  indexOf arr x = Z.of_nat i ↔
  ∃ p, arr !! i = Some p ∧ (p =? x) = true
       ∧ ∀ (j : nat) q, (j < i)%nat → arr !! j = Some q → (q =? x) = false.
Proof.
  unfold indexOf.
  destruct (list_find _ arr) as [[k p]|] eqn:Hfind.
  - apply list_find_Some in Hfind as (Hk & Hp & Hfirst). split.
    + intros Hi. assert (k = i) as -> by lia. exists p.
      split; [done|]. split; [by apply Is_true_true|].
      intros j q Hj Hq. specialize (Hfirst j q Hq Hj).
      by destruct (q =? x).
    + intros (p' & Hi & Hp' & Hbefore). f_equal.
      destruct (Nat.lt_trichotomy k i) as [Hlt|[->|Hgt]]; [|done|].
      * rewrite (Hbefore k p Hlt Hk) in Hp. done.
      * specialize (Hfirst i p' Hi Hgt). by rewrite Hp' in Hfirst.
  - split; [lia|]. intros (p & Hi & Hp & _).
    apply list_find_None in Hfind.
    rewrite Forall_forall in Hfind.
    specialize (Hfind p ltac:(by eapply list_elem_of_lookup_2)).
    by rewrite Hp in Hfind.
Qed.

Lemma indexOf_present (arr : list float) (x p : float) :
  p ∈ arr → (p =? x) = true → ∃ i : nat, indexOf arr x = Z.of_nat i.
Proof.
  intros Hin Hp. unfold indexOf.
  destruct (list_find_elem_of (λ y, Is_true (y =? x)) arr p Hin)
    as [[i q] ->]; [by apply Is_true_true | by exists i].
Qed.

Lemma label_at_in_range (labels : list string) (i : nat) :
  label_at labels (Z.of_nat i) = labels !! i.
Proof.
  unfold label_at. destruct (Z.ltb_spec (Z.of_nat i) 0); [lia|].
  by rewrite Nat2Z.id.
Qed.

Lemma label_at_outside (labels : list string) (i : Z) :
  (i < 0 ∨ Z.of_nat (length labels) ≤ i)%Z → label_at labels i = None.
Proof.
  intros Hi. unfold label_at. destruct (Z.ltb_spec i 0); [done|].
  apply lookup_ge_None_2. lia.
Qed.

End SelectionFacts.

(** ** Claims on the scaler *)

Module ScalerClaims.
Import JS FloatFacts PredictDisease.

#[local] Open Scope float_scope.

Lemma scaleInput_length (v : list float) (s : scaler_file) :
  length (scaleInput v s) = length v.
Proof. unfold scaleInput. apply length_imap. Qed.

Lemma scaleInput_lookup (v : list float) (s : scaler_file) (i : nat) :
  scaleInput v s !! i
  = (λ x, (x - mean_at s i) / std_or_1 s i) <$> v !! i.
Proof. unfold scaleInput. apply list_lookup_imap. Qed.

(** The divisor [std || 1] is never a zero. *)
Lemma or_1_not_zero (sd : float) :
  is_zero (if truthy sd then sd else 1) = false.
Proof.
  unfold truthy. destruct (is_zero sd) eqn:Hz; simpl; [done|].
  by destruct (is_nan sd).
Qed.

(** C4: for a vector v and a scaler of the same length, scaling works entry
    by entry: the output at i is (v[i] - mean[i]) / (std[i] or 1); a std of
    0 counts as 1, so the divisor is never zero; the quotient is returned
    as it is, with no clamping. *)
Theorem scaleInput_elementwise (v : list float) (s : scaler_file) :
  length v = length (mean s) → length v = length (std s) →
  length (scaleInput v s) = length v
  ∧ ∀ (i : nat) x, v !! i = Some x →
      ∃ m sd, mean s !! i = Some m ∧ std s !! i = Some sd
        ∧ scaleInput v s !! i = Some ((x - m) / (if truthy sd then sd else 1))
        ∧ (is_zero sd = true → scaleInput v s !! i = Some ((x - m) / 1))
        ∧ is_zero (if truthy sd then sd else 1) = false.
Proof.
  intros Hmean Hstd. split; [apply scaleInput_length|].
  intros i x Hx. pose proof (lookup_lt_Some _ _ _ Hx) as Hi.
  destruct (lookup_lt_is_Some_2 (mean s) i ltac:(lia)) as [m Hm].
  destruct (lookup_lt_is_Some_2 (std s) i ltac:(lia)) as [sd Hsd].
  exists m, sd.
  assert (Hout : scaleInput v s !! i
                 = Some ((x - m) / (if truthy sd then sd else 1))).
  { rewrite scaleInput_lookup, Hx. unfold mean_at, std_or_1.
    by rewrite Hm, Hsd. }
  repeat split; [done | done | done | | apply or_1_not_zero].
  intros Hz. rewrite Hout. unfold truthy. by rewrite Hz.
Qed.

Lemma scaleInput_elementwise_witness :
  let v := [25; 3; 7] in
  let s := {| mean := [20; 1; 7]; std := [2; 0; 4] |} in
  length (scaleInput v s) = length v
  ∧ ∀ (i : nat) x, v !! i = Some x →
      ∃ m sd, mean s !! i = Some m ∧ std s !! i = Some sd
        ∧ scaleInput v s !! i = Some ((x - m) / (if truthy sd then sd else 1))
        ∧ (is_zero sd = true → scaleInput v s !! i = Some ((x - m) / 1))
        ∧ is_zero (if truthy sd then sd else 1) = false.
Proof.
  apply (scaleInput_elementwise
           [25; 3; 7] {| mean := [20; 1; 7]; std := [2; 0; 4] |});
    reflexivity.
Defined.

(** Large quotients, and quotients that overflow, come out as computed. *)
Example scaleInput_keeps_extremes :
  scaleInput [1e300; -1e300; 1e300]
             {| mean := [0; 0; 0]; std := [1e-5; 1e-5; 1e-300] |}
  = [1e305; -1e305; infinity].
Proof. reflexivity. Qed.

(** C5 does not hold of the code: two inputs whose length differs from
    the scaler's are scaled without any error; the longer one gets a NaN
    where the mean is missing, for the shorter one the scaler's tail is
    left unread, and the handler answers 200. *)
Lemma scaleInput_mismatch_no_error :
  length [1; 2; 3] ≠ length (mean {| mean := [0; 0]; std := [1; 1] |})
  ∧ scaleInput [1; 2; 3] {| mean := [0; 0]; std := [1; 1] |} = [1; 2; nan]
  ∧ length [5] ≠ length (mean {| mean := [0; 0]; std := [1; 1] |})
  ∧ scaleInput [5] {| mean := [0; 0]; std := [1; 1] |} = [5]
  ∧ status (handler Math_exp_ref
              (Ok (placeholder {| mean := [0; 0]; std := [1; 1] |}
                               ["a"; "b"; "c"]%string))
              (post [1; 2; 3]))
    = 200%Z.
Proof. repeat split; (done || by vm_compute). Qed.

(** C5, amended: [scaleInput] checks no length and fails on none.  The
    output has the length of the input; every entry follows the formula
    with a missing mean read as NaN and a missing std as 1, so an index
    beyond the means gives NaN; what the scaler holds beyond the input is
    not read; and the handler answers 200 whenever the backend returns
    logits. *)
Theorem scaleInput_any_length (v : list float) (s : scaler_file) :
  length (scaleInput v s) = length v
  ∧ (∀ (i : nat) x, v !! i = Some x →
       scaleInput v s !! i = Some ((x - mean_at s i) / std_or_1 s i))
  ∧ (∀ (i : nat) x, v !! i = Some x → (length (mean s) ≤ i)%nat →
       scaleInput v s !! i = Some nan)
  ∧ (∀ i : nat, (length (std s) ≤ i)%nat → std_or_1 s i = 1)
  ∧ scaleInput v s
    = scaleInput v {| mean := take (length v) (mean s);
                      std := take (length v) (std s) |}
  ∧ (∀ Math_exp files logits,
       scaler files = s →
       predictXGB files (scaleInput v s) = Ok logits →
       status (handler Math_exp (Ok files) (post v)) = 200%Z).
Proof.
  split; [apply scaleInput_length|].
  split; [intros i x Hx; by rewrite scaleInput_lookup, Hx|].
  split.
  { intros i x Hx Hi. rewrite scaleInput_lookup, Hx. simpl.
    unfold mean_at. rewrite lookup_ge_None_2 by done. simpl.
    by rewrite sub_nan_r, div_nan_l. }
  split.
  { intros i Hi. unfold std_or_1. by rewrite lookup_ge_None_2. }
  split.
  { unfold scaleInput. apply imap_ext. intros i x Hx.
    pose proof (lookup_lt_Some _ _ _ Hx) as Hi.
    unfold mean_at, std_or_1. simpl. by rewrite !lookup_take_lt. }
  intros Math_exp files logits <- Hlogits.
  unfold handler, post. simpl. by rewrite Hlogits.
Qed.

Lemma scaleInput_any_length_witness :
  status (handler Math_exp_ref
            (Ok (placeholder {| mean := [0; 0]; std := [1; 1] |}
                             ["a"; "b"; "c"]%string))
            (post [1; 2; 3]))
  = 200%Z.
Proof.
  eapply (proj2 (proj2 (proj2 (proj2 (proj2
            (scaleInput_any_length [1; 2; 3]
               {| mean := [0; 0]; std := [1; 1] |})))))
            Math_exp_ref
            (placeholder {| mean := [0; 0]; std := [1; 1] |}
                         ["a"; "b"; "c"]%string));
    reflexivity.
Defined.

End ScalerClaims.

(** ** Claims on the placeholder backend *)

Module BoosterClaims.
Import JS Booster.

#[local] Open Scope float_scope.

(** The inner loop reads an entry through [number_or_zero] only. *)
Lemma accumulate_numbers (i : nat) (f1 : list value) :
  ∀ f2 j s,
    number_or_zero <$> f1 = number_or_zero <$> f2 →
    accumulate i j f1 s = accumulate i j f2 s.
Proof.
  induction f1 as [|x f1 IH]; intros [|y f2] j s H; simpl in *;
    try done.
  injection H as Hxy H. rewrite Hxy. by apply IH.
Qed.

Lemma predictXGB_numbers (labels : labels_file) (f1 f2 : list value) :
  number_or_zero <$> f1 = number_or_zero <$> f2 →
  predictXGB labels (IsArray f1) = predictXGB labels (IsArray f2).
Proof.
  intros H. simpl. f_equal. apply list_fmap_ext. intros _ i _.
  unfold logit. by rewrite (accumulate_numbers i f1 f2).
Qed.

(** C8: the placeholder model is deterministic: two calls on identical
    scaled vectors give logit vectors equal bit for bit, the result being a
    function of the labels and the entries alone; an entry that is not a
    number counts as 0 and makes no call fail. *)
Theorem predictXGB_deterministic (labels : labels_file) :
  (∀ f1 f2 : list value,
      f1 = f2 → predictXGB labels (IsArray f1) = predictXGB labels (IsArray f2))
  ∧ (∀ f1 f2 : list value,
      number_or_zero <$> f1 = number_or_zero <$> f2 →
      predictXGB labels (IsArray f1) = predictXGB labels (IsArray f2))
  ∧ (∀ f : list value,
      predictXGB labels (IsArray f)
      = predictXGB labels (IsArray (VNumber <$> (number_or_zero <$> f))))
  ∧ (∀ f : list value,
      ∃ logits, predictXGB labels (IsArray f) = Ok logits
                ∧ length logits = nLabels labels).
Proof.
  split; [by intros f1 f2 ->|].
  split; [apply predictXGB_numbers|].
  split.
  - intros f. apply predictXGB_numbers.
    rewrite <- !list_fmap_compose. by apply list_fmap_ext.
  - intros f. eexists. split; [reflexivity|].
    by rewrite length_fmap, length_seq.
Qed.

Lemma predictXGB_deterministic_witness :
  predictXGB (LabelsArray ["a"; "b"; "c"]%string)
             (IsArray [VNumber 1; VString "x"; VNull; VNumber 2.5])
  = predictXGB (LabelsArray ["a"; "b"; "c"]%string)
               (IsArray [VNumber 1; VNumber 0; VBool true; VNumber 2.5]).
Proof.
  apply (proj1 (proj2 (predictXGB_deterministic
                         (LabelsArray ["a"; "b"; "c"]%string)))).
  reflexivity.
Defined.

(** The logits of one input, to the last bit. *)
Example predictXGB_sample :
  predictXGB (LabelsArray ["a"; "b"; "c"]%string)
             (IsArray [VNumber 1; VString "x"; VNumber 2.5])
  = Ok [0.86168; 0.52904000000000007; 1.40056].
Proof. reflexivity. Qed.

(** On the zero vector the logits are the biases. *)
Example predictXGB_zero_vector :
  predictXGB (LabelsArray ["a"; "b"; "c"]%string)
             (IsArray (replicate 46 (VNumber 0)))
  = Ok [bias 0; bias 1; bias 2].
Proof. by vm_compute. Qed.

End BoosterClaims.

(** ** Claims on selection and on the handler *)

Module HandlerClaims.
Import JS FloatOrder FloatFacts PredictDisease SelectionFacts.

#[local] Open Scope float_scope.

(** C7: selection returns the first, lowest index that holds the maximum
    probability, ties going to the left, and maps it through the label
    list; an index outside the list is itself the prediction, not an
    error. *)
Theorem select_first_maximum (probs : list float) (labels : list string) :
  (probs ≠ [] → Forall (λ p, is_nan p = false) probs →
     ∃ (i : nat) p,
       bestIndex probs = Z.of_nat i
       ∧ probs !! i = Some p
       ∧ Forall (λ q, (q <=? p) = true) probs
       ∧ ∀ (j : nat) q, (j < i)%nat → probs !! j = Some q → (q <? p) = true)
  ∧ (∀ (i : nat) name,
       bestIndex probs = Z.of_nat i → labels !! i = Some name →
       select_label labels (bestIndex probs) = PredLabel name)
  ∧ ((bestIndex probs < 0 ∨ Z.of_nat (length labels) ≤ bestIndex probs)%Z →
       select_label labels (bestIndex probs) = PredIndex (bestIndex probs)).
Proof.
  split; [|split].
  - intros Hne Hnan.
    destruct (Math_max_spec probs Hne Hnan) as (Hm & Hbound & p0 & Hin & Hp0).
    destruct (indexOf_present probs (Math_max probs) p0 Hin Hp0) as [i Hi].
    pose proof Hi as Hfound.
    apply indexOf_found in Hfound as (p & Hlook & Hp & Hbefore).
    assert (Hpn : is_nan p = false).
    { rewrite Forall_forall in Hnan. apply Hnan.
      by eapply list_elem_of_lookup_2. }
    apply eqb_key in Hp; [|done..].
    exists i, p. repeat split; [done | done | |].
    + rewrite Forall_forall in Hbound, Hnan. apply Forall_forall.
      intros q Hq. apply leb_key; [by apply Hnan | done |].
      specialize (Hbound q Hq). unfold lex_lt, lex_eq in *. lia.
    + intros j q Hj Hq.
      assert (Hqin : q ∈ probs) by (by eapply list_elem_of_lookup_2).
      rewrite Forall_forall in Hbound, Hnan.
      pose proof (Hnan q Hqin) as Hqn.
      specialize (Hbound q Hqin). specialize (Hbefore j q Hj Hq).
      apply ltb_key; [done..|].
      assert (Hneq : ¬ lex_eq (fkey q) (fkey (Math_max probs))).
      { intros Heq. apply eqb_key in Heq; [|done..]. congruence. }
      unfold lex_lt, lex_eq in *. lia.
  - intros i name Hi Hname. unfold select_label.
    by rewrite Hi, label_at_in_range, Hname.
  - intros Hout. unfold select_label. by rewrite label_at_outside.
Qed.

Lemma select_first_maximum_witness :
  ∃ (i : nat) p,
    bestIndex [0.2; 0.4; 0.1; 0.4] = Z.of_nat i
    ∧ [0.2; 0.4; 0.1; 0.4] !! i = Some p
    ∧ Forall (λ q, (q <=? p) = true) [0.2; 0.4; 0.1; 0.4]
    ∧ ∀ (j : nat) q, (j < i)%nat →
        [0.2; 0.4; 0.1; 0.4] !! j = Some q → (q <? p) = true.
Proof.
  apply (proj1 (select_first_maximum [0.2; 0.4; 0.1; 0.4] [])).
  - discriminate.
  - repeat constructor.
Defined.

(** A tie goes to the left; an index past the labels is returned raw. *)
Example select_tie_and_fallback :
  bestIndex [0.2; 0.4; 0.1; 0.4] = 1%Z
  ∧ select_label ["flu"; "cold"]%string (bestIndex [0.2; 0.4; 0.1; 0.4])
    = PredLabel "cold"
  ∧ select_label ["flu"]%string (bestIndex [0.2; 0.4; 0.1; 0.4])
    = PredIndex 1.
Proof. by vm_compute. Qed.

Section WithExp.

Variable Math_exp : float → float.

(** One NaN among the logits makes every probability NaN. *)
Lemma softmax_nan (logits : list float) :
  Math_exp nan = nan →
  Exists (λ x, is_nan x = true) logits →
  Forall (λ p, is_nan p = true) (softmax Math_exp logits).
Proof.
  intros Hexp Hex. unfold softmax. rewrite (Math_max_nan logits Hex).
  apply Forall_fmap, Forall_fmap, Forall_forall. intros x _. simpl.
  by rewrite sub_nan_r, Hexp, div_nan_l.
Qed.

Lemma bestIndex_all_nan (probs : list float) :
  Forall (λ p, is_nan p = true) probs → bestIndex probs = (-1)%Z.
Proof.
  intros Hall. unfold bestIndex. destruct probs as [|p probs]; [done|].
  rewrite Math_max_nan; [apply indexOf_nan|].
  apply Forall_cons in Hall as [Hp _]. by constructor.
Qed.

(** C10: when the probability vector is empty or holds NaN only (the
    logits were empty, or the arithmetic left the finite numbers),
    [indexOf] of the maximum is -1, no label stands at -1, and the
    pipeline answers 200 with prediction -1, not an error. *)
Theorem empty_or_nan_predicts_minus_one
    (files : artifacts) (symptoms logits : list float) :
  predictXGB files (scaleInput symptoms (scaler files)) = Ok logits →
  (softmax Math_exp logits = []
   ∨ Forall (λ p, is_nan p = true) (softmax Math_exp logits)) →
  bestIndex (softmax Math_exp logits) = (-1)%Z
  ∧ label_at (labels files) (-1) = None
  ∧ handler Math_exp (Ok files) (post symptoms)
    = Response 200 (BodyResult (PredIndex (-1)) (softmax Math_exp logits))
  ∧ (logits = [] → softmax Math_exp logits = [])
  ∧ (Math_exp nan = nan → Exists (λ x, is_nan x = true) logits →
       Forall (λ p, is_nan p = true) (softmax Math_exp logits)).
Proof.
  intros Hlogits Hprobs.
  assert (Hbest : bestIndex (softmax Math_exp logits) = (-1)%Z).
  { destruct Hprobs as [-> | Hall]; [done | by apply bestIndex_all_nan]. }
  repeat split; [done | | by intros -> | apply softmax_nan].
  unfold handler, post. simpl. rewrite Hlogits, Hbest. reflexivity.
Qed.


End WithExp.



Lemma empty_or_nan_predicts_minus_one_witness :
  handler Math_exp_ref
          (Ok (placeholder {| mean := [0]; std := [1] |} [])) (post [1])
  = Response 200 (BodyResult (PredIndex (-1)) [])
  ∧ handler Math_exp_ref
            (Ok (placeholder {| mean := [0; 0]; std := [1; 1] |}
                             ["a"; "b"; "c"]%string))
            (post [1; 2; 3])
    = Response 200 (BodyResult (PredIndex (-1)) [nan; nan; nan]).
Proof.
  split.
  - destruct (empty_or_nan_predicts_minus_one Math_exp_ref
                (placeholder {| mean := [0]; std := [1] |} []) [1] [])
      as (_ & _ & Hresp & _).
    + reflexivity.
    + left. reflexivity.
    + exact Hresp.
  - destruct (empty_or_nan_predicts_minus_one Math_exp_ref
                (placeholder {| mean := [0; 0]; std := [1; 1] |}
                             ["a"; "b"; "c"]%string)
                [1; 2; 3] [nan; nan; nan])
      as (_ & _ & Hresp & _).
    + reflexivity.
    + right. repeat constructor.
    + exact Hresp.
Defined.

End HandlerClaims.

(** ** Claims on the normalizer *)

Module NormalizerClaims.
Import Ideal.

#[local] Open Scope R_scope.










End NormalizerClaims.

(** ** More on the feature extractor *)

Module ExtractorExtras.
Import Str StrFacts ProcessMessage ExtractorFacts.

(** The value of a symptom slot, by the [includes] test of the callback. *)
Lemma symptom_slot_value (message : string) (i : nat) (name : string) :
  (6 ≤ i)%nat → FEATURE_NAMES !! i = Some name →
  buildFeatureVector message !! i =
    Some (if includes (toLowerCase message) (replace_underscores name)
          then extractSeverity message else 0).
Proof.
  intros Hi Hname. pose proof (lookup_lt_Some _ _ _ Hname) as Hlt.
  unfold buildFeatureVector. rewrite extractSeverity_lower.
  apply forEach_from_symptom; [lia | lia | by rewrite Nat.sub_0_r |].
  rewrite !list_lookup_insert_ne by lia.
  by apply lookup_replicate_2.
Qed.

Lemma vital_slot_value (message : string) (i : nat) :
  (i < 6)%nat →
  buildFeatureVector message !! i = [25; 1; 0; 80; 120; 180] !! i.
Proof.
  intros Hi. unfold buildFeatureVector. rewrite forEach_from_vital by done.
  do 6 (destruct i as [|i]; [reflexivity|]). lia.
Qed.

Lemma first_entry_elem_of msg entries val :
  first_entry msg entries = Some val →
  ∃ key, (key, val) ∈ entries ∧ includes msg key = true.
Proof.
  intros (before & key & after & -> & Hin & _)%first_entry_Some.
  exists key. split; [|done]. apply elem_of_app. right. constructor.
Qed.

Lemma severityMap_levels key val :
  (key, val) ∈ severityMap → 1 ≤ val ≤ 3.
Proof.
  unfold severityMap. rewrite !elem_of_cons, elem_of_nil.
  intros H. repeat (destruct H as [[= _ ->]|H]; [lia|]). done.
Qed.

Lemma extractSeverity_levels (msg : string) : 1 ≤ extractSeverity msg ≤ 3.
Proof.
  unfold extractSeverity.
  destruct (first_entry _ severityMap) as [val|] eqn:H; [|lia].
  apply first_entry_elem_of in H as (key & Hin & _).
  by eapply severityMap_levels.
Qed.

(** Every entry of the vector is a small natural number: a symptom slot
    holds 0 or the one severity of the message, which is 1, 2 or 3. *)
Theorem symptom_entries_zero_or_severity (message : string) (i : nat) (v : Z) :
  (6 ≤ i)%nat →
  buildFeatureVector message !! i = Some v →
  (v = 0 ∨ v = extractSeverity message)
  ∧ 0 ≤ v ≤ 3
  ∧ 1 ≤ extractSeverity message ≤ 3.
Proof.
  intros Hi Hv. pose proof (extractSeverity_levels message) as Hsev.
  assert (Hlen : (i < length FEATURE_NAMES)%nat).
  { apply lookup_lt_Some in Hv. unfold buildFeatureVector in Hv.
    rewrite forEach_from_length, !length_insert, length_replicate in Hv.
    done. }
  destruct (lookup_lt_is_Some_2 _ _ Hlen) as [name Hname].
  rewrite (symptom_slot_value message i name Hi Hname) in Hv.
  injection Hv as <-. destruct (includes _ _); repeat split; auto; lia.
Qed.

Lemma symptom_entries_zero_or_severity_witness :
  (3 = 0 ∨ 3 = extractSeverity "High fever since monday")
  ∧ 0 ≤ 3 ≤ 3
  ∧ 1 ≤ extractSeverity "High fever since monday" ≤ 3.
Proof.
  apply (symptom_entries_zero_or_severity "High fever since monday" 6 3);
    [lia | reflexivity].
Defined.

(** In a list of entries ordered by falling level, the first key found
    carries the highest level among the keys found. *)
Lemma first_entry_highest msg entries :
  StronglySorted (λ e1 e2 : string * Z, e2.2 ≤ e1.2) entries →
  ∀ val key' val',
    first_entry msg entries = Some val →
    (key', val') ∈ entries → includes msg key' = true → val' ≤ val.
Proof.
  induction 1 as [|[k v] entries Hsorted IH Hall]; intros val key' val';
    simpl.
  - done.
  - rewrite elem_of_cons. destruct (includes msg k) eqn:Hk.
    + intros [= <-] [[= -> ->]|Hin] Hfound; [lia|].
      rewrite Forall_forall in Hall. by apply (Hall (key', val')).
    + intros Hfirst [[= -> ->]|Hin] Hfound; [congruence|].
      by eapply IH.
Qed.

Lemma severityMap_sorted :
  StronglySorted (λ e1 e2 : string * Z, e2.2 ≤ e1.2) severityMap.
Proof. unfold severityMap. repeat constructor; simpl; lia. Qed.

Lemma occurs_ci_context (key m pre post : string) :
  occurs_ci key m → occurs_ci key (pre +:+ m +:+ post).
Proof.
  intros (a & w & b & -> & Hw). exists (pre +:+ a), w, (b +:+ post).
  split; [|done]. by rewrite !app_assoc.
Qed.

Lemma occurs_context (key m pre post : string) :
  occurs key m → occurs key (pre +:+ m +:+ post).
Proof.
  intros (a & b & ->). exists (pre +:+ a), (b +:+ post).
  by rewrite !app_assoc.
Qed.

Lemma extractSeverity_bounds_keys (m key : string) (val : Z) :
  (key, val) ∈ severityMap → occurs_ci key m → val ≤ extractSeverity m.
Proof.
  intros Hin Hocc. apply includes_lower_ci in Hocc. unfold extractSeverity.
  destruct (first_entry _ severityMap) as [v|] eqn:Hfirst.
  - by apply (first_entry_highest (toLowerCase m) severityMap
                severityMap_sorted v key val).
  - apply first_entry_None in Hfirst. rewrite Forall_forall in Hfirst.
    specialize (Hfirst _ Hin). simpl in Hfirst. congruence.
Qed.

Lemma extractSeverity_attained (msg : string) :
  (∃ key, (key, extractSeverity msg) ∈ severityMap ∧ occurs_ci key msg)
  ∨ (extractSeverity msg = 1
     ∧ ∀ key val, (key, val) ∈ severityMap → ¬ occurs_ci key msg).
Proof.
  unfold extractSeverity.
  destruct (first_entry _ severityMap) as [v|] eqn:Hfirst.
  - left. apply first_entry_elem_of in Hfirst as (key & Hin & Hfound).
    exists key. split; [done|]. by apply includes_lower_ci.
  - right. split; [done|]. intros key val Hin Hocc.
    apply first_entry_None in Hfirst. rewrite Forall_forall in Hfirst.
    specialize (Hfirst _ Hin). simpl in Hfirst.
    apply includes_lower_ci in Hocc. congruence.
Qed.

Lemma extractSeverity_context (msg pre post : string) :
  extractSeverity msg ≤ extractSeverity (pre +:+ msg +:+ post).
Proof.
  destruct (extractSeverity_attained msg) as [(key & Hin & Hocc)|[-> _]].
  - apply (extractSeverity_bounds_keys _ key); [done|].
    by apply occurs_ci_context.
  - apply extractSeverity_levels.
Qed.

(** The severity of a message is the highest level among the lexicon's
    keywords that occur in it (1 when none occurs): the lexicon lists its
    keywords by falling level.  Hence text added before or after a message
    never lowers its severity. *)
Theorem extractSeverity_highest_level (msg : string) :
  (∀ key val, (key, val) ∈ severityMap → occurs_ci key msg →
     val ≤ extractSeverity msg)
  ∧ ((∃ key, (key, extractSeverity msg) ∈ severityMap ∧ occurs_ci key msg)
     ∨ (extractSeverity msg = 1
        ∧ ∀ key val, (key, val) ∈ severityMap → ¬ occurs_ci key msg))
  ∧ (∀ pre post,
       extractSeverity msg ≤ extractSeverity (pre +:+ msg +:+ post)).
Proof.
  split; [apply extractSeverity_bounds_keys|].
  split; [apply extractSeverity_attained|].
  apply extractSeverity_context.
Qed.

Lemma extractSeverity_highest_level_witness :
  2 ≤ extractSeverity "slight but MODERATE pain".
Proof.
  apply (proj1 (extractSeverity_highest_level "slight but MODERATE pain")
           "moderate"%string 2).
  - unfold severityMap. do 3 apply list_elem_of_further. constructor.
  - apply includes_lower_ci. reflexivity.
Defined.

(** Text added before or after a message never lowers an entry of its
    vector: a phrase found stays found, and the severity does not fall. *)
Theorem buildFeatureVector_monotone (msg pre post : string) (i : nat) (a b : Z) :
  buildFeatureVector msg !! i = Some a →
  buildFeatureVector (pre +:+ msg +:+ post) !! i = Some b →
  a ≤ b ∧ (a ≠ 0 → b ≠ 0).
Proof.
  intros Ha Hb. destruct (decide (i < 6)%nat) as [Hi|Hi].
  - rewrite vital_slot_value in Ha by done.
    rewrite vital_slot_value in Hb by done.
    rewrite Ha in Hb. injection Hb as <-. split; [lia | done].
  - assert (Hlen : (i < length FEATURE_NAMES)%nat).
    { apply lookup_lt_Some in Ha. unfold buildFeatureVector in Ha.
      rewrite forEach_from_length, !length_insert, length_replicate in Ha.
      done. }
    destruct (lookup_lt_is_Some_2 _ _ Hlen) as [name Hname].
    rewrite (symptom_slot_value _ i name) in Ha by (done || lia).
    rewrite (symptom_slot_value _ i name) in Hb by (done || lia).
    injection Ha as <-. injection Hb as <-.
    pose proof (extractSeverity_levels msg) as Hs.
    pose proof (extractSeverity_levels (pre +:+ msg +:+ post)) as Hs'.
    pose proof (extractSeverity_context msg pre post) as Hle.
    destruct (includes (toLowerCase msg) _) eqn:Hin.
    + apply includes_occurs in Hin.
      apply (occurs_context _ _ (toLowerCase pre) (toLowerCase post)) in Hin.
      rewrite <- !toLowerCase_app in Hin. apply includes_occurs in Hin.
      rewrite Hin. split; lia.
    + clear Hin. destruct (includes _ _); split; lia.
Qed.

Lemma buildFeatureVector_monotone_witness :
  1 ≤ 3 ∧ (1 ≠ 0 → 3 ≠ 0).
Proof.
  apply (buildFeatureVector_monotone
           "a cough" "It is bad: " " and chills" 7 1 3);
    reflexivity.
Defined.





End ExtractorExtras.

(** ** More on doubles: signs and special values *)

Module FloatSignFacts.
Import JS FloatOrder FloatFacts FloatSign.

#[local] Open Scope float_scope.

Lemma sweep_iter (P : Z → bool) (n : positive) :
  (Pos.iter (sweep_step P) (0%Z, true) n).1 = Z.pos n
  ∧ ((Pos.iter (sweep_step P) (0%Z, true) n).2 = true →
     ∀ k, (0 ≤ k < Z.pos n)%Z → P k = true).
Proof.
  induction n as [|n [IHk IHok]] using Pos.peano_ind.
  - simpl. split; [done|]. intros H k Hk. assert (k = 0%Z) as -> by lia.
    by destruct (P 0%Z).
  - rewrite Pos.iter_succ. unfold sweep_step at 1. simpl. split; [lia|].
    intros [Hok HP]%andb_true_iff k Hk.
    destruct (decide (k = Z.pos n)) as [->|Hne].
    + by rewrite <- IHk.
    + apply IHok; [done | lia].
Qed.

Lemma sweep_true (P : Z → bool) (n : positive) :
  sweep P n = true → ∀ k, (0 ≤ k < Z.pos n)%Z → P k = true.
Proof. apply sweep_iter. Qed.

Lemma binary_round_aux_unsigned (m e : Z) (l : SpecFloat.location) :
  unsigned_or_nan (binary_round_aux prec emax false m e l).
Proof.
  unfold binary_round_aux.
  destruct (shr_fexp prec emax m e l) as [mrs' e'].
  destruct (shr_fexp prec emax _ e' SpecFloat.loc_Exact) as [mrs'' e''].
  destruct (shr_m mrs''); simpl; [done | | done].
  by destruct (Z.leb _ _).
Qed.

Lemma binary_normalize_unsigned (m e : Z) :
  (0 ≤ m)%Z → unsigned_or_nan (binary_normalize prec emax m e false).
Proof.
  intros Hm. destruct m as [|p|p]; simpl; [done | | lia].
  unfold binary_round. destruct (shl_align _ _ _) as [mz ez].
  apply binary_round_aux_unsigned.
Qed.

Lemma of_Z_unsigned (z : Z) : (0 ≤ z)%Z → unsigned_or_nan (Prim2SF (of_Z z)).
Proof.
  intros Hz. unfold of_Z. destruct (Z.ltb_spec z 0); [lia|].
  rewrite of_uint63_spec. apply binary_normalize_unsigned.
  apply Uint63.to_Z_bounded.
Qed.

Lemma mul_unsigned (x y : float) :
  unsigned_or_nan (Prim2SF x) → unsigned_or_nan (Prim2SF y) →
  unsigned_or_nan (Prim2SF (x * y)).
Proof.
  rewrite mul_spec. unfold SF64mul.
  destruct (Prim2SF x) as [sx|sx| |sx mx ex],
           (Prim2SF y) as [sy|sy| |sy my ey];
    simpl; intros Hx Hy; subst; try done.
  apply binary_round_aux_unsigned.
Qed.

Lemma trunc_unsigned (x : float) :
  unsigned_or_nan (Prim2SF x) → (0 ≤ trunc x)%Z.
Proof.
  unfold trunc. destruct (Prim2SF x) as [s|s| |s m e]; simpl; try done.
  intros ->. apply Z.shiftl_nonneg. lia.
Qed.

Lemma is_zero_Prim2SF (x : float) :
  is_zero x = true → ∃ s, Prim2SF x = S754_zero s.
Proof.
  unfold is_zero. rewrite FloatAxioms.eqb_spec. unfold SFeqb.
  change (Prim2SF PrimFloat.zero) with (S754_zero false).
  destruct (Prim2SF x) as [s|[]| |[] m e]; simpl; try done. eauto.
Qed.

Lemma Prim2SF_half :
  Prim2SF 0.5 = S754_finite false 4503599627370496 (-53)
  ∧ Prim2SF (-0.5) = S754_finite true 4503599627370496 (-53).
Proof. by vm_compute. Qed.

(** A double between -0.5 and 0.5 is a zero or a finite number. *)
Lemma bounded_finite (w : float) :
  (-0.5 <=? w) = true → (w <? 0.5) = true →
  ∃ s, Prim2SF w = S754_zero s ∨ ∃ m e, Prim2SF w = S754_finite s m e.
Proof.
  rewrite FloatAxioms.leb_spec, FloatAxioms.ltb_spec. unfold SFleb, SFltb.
  rewrite (proj1 Prim2SF_half), (proj2 Prim2SF_half).
  destruct (Prim2SF w) as [s|[]| |s m e]; cbn [SFcompare]; try done; eauto.
Qed.

(** A finite weight times a zero, added to +0, leaves +0. *)
Lemma add_mul_zero (w x : float) :
  (-0.5 <=? w) = true → (w <? 0.5) = true → is_zero x = true →
  0 + w * x = 0.
Proof.
  intros Hlo Hhi [sx Hx]%is_zero_Prim2SF.
  destruct (bounded_finite w Hlo Hhi) as [s [Hw|(m & e & Hw)]];
    apply Prim2SF_inj; rewrite add_spec, mul_spec, Hw, Hx;
    simpl; by destruct (xorb s sx).
Qed.

Lemma mul_nan_r (x : float) : x * nan = nan.
Proof.
  apply Prim2SF_inj. rewrite mul_spec, Prim2SF_nan.
  by destruct (Prim2SF x) as [?|?| |? ? ?].
Qed.

Lemma add_nan_r (x : float) : x + nan = nan.
Proof.
  apply Prim2SF_inj. rewrite add_spec, Prim2SF_nan.
  by destruct (Prim2SF x) as [?|?| |? ? ?].
Qed.

Lemma add_nan_l (x : float) : nan + x = nan.
Proof. apply Prim2SF_inj. by rewrite add_spec, Prim2SF_nan. Qed.

End FloatSignFacts.

(** ** More on the placeholder backend *)

Module BoosterExtras.
Import JS FloatFacts FloatSign FloatSignFacts Booster.

#[local] Open Scope float_scope.

(** A weight is [k / 100000 - 0.5] for an integer k of [0, 100000). *)
Lemma weightFor_mixed (i j : nat) :
  ∃ k, (0 ≤ k < 100000)%Z ∧ weightFor i j = of_Z k / 100000 - 0.5.
Proof.
  unfold weightFor, rem_int. eexists. split; [|reflexivity].
  apply Z.rem_bound_pos; [|lia].
  apply trunc_unsigned, of_Z_unsigned. unfold ToUint32.
  apply Z.mod_pos_bound. lia.
Qed.

(** All the 100000 values a weight can take, computed and compared. *)
Lemma weights_swept :
  sweep (λ k, let w := of_Z k / 100000 - 0.5 in
              (-0.5 <=? w) && (w <? 0.5))%bool 100000 = true.
Proof. vm_compute. reflexivity. Qed.

Lemma weightFor_bounds (i j : nat) :
  (-0.5 <=? weightFor i j) = true ∧ (weightFor i j <? 0.5) = true.
Proof.
  destruct (weightFor_mixed i j) as (k & Hk & ->).
  pose proof (sweep_true _ _ weights_swept k Hk) as H. simpl in H.
  by apply andb_true_iff in H.
Qed.

(** Every pseudo-weight lies in [-0.5, 0.5): it is [k / 100000 - 0.5] for
    an integer k of [0, 100000), a finite number and never NaN, whatever
    the two indices. *)
Theorem weightFor_range (labelIdx featIdx : nat) :
  (-0.5 <=? weightFor labelIdx featIdx) = true
  ∧ (weightFor labelIdx featIdx <? 0.5) = true
  ∧ ∃ k, (0 ≤ k < 100000)%Z
         ∧ weightFor labelIdx featIdx = of_Z k / 100000 - 0.5.
Proof.
  destruct (weightFor_bounds labelIdx featIdx) as [Hlo Hhi].
  split; [done|]. split; [done|]. apply weightFor_mixed.
Qed.

(** A bias is [(r - 3) * 0.02] for an integer r of [0, 7). *)
Lemma bias_rem (i : nat) :
  ∃ r, (0 ≤ r < 7)%Z ∧ bias i = (of_Z r - 3) * 0.02.
Proof.
  unfold bias, rem_int. eexists. split; [|reflexivity].
  apply Z.rem_bound_pos; [|lia].
  apply trunc_unsigned, mul_unsigned; [|done].
  apply of_Z_unsigned. lia.
Qed.

Lemma bias_facts (i : nat) :
  0 + bias i = bias i
  ∧ (-0.06 <=? bias i) = true ∧ (bias i <=? 0.06) = true.
Proof.
  destruct (bias_rem i) as (r & Hr & ->).
  assert (r = 0 ∨ r = 1 ∨ r = 2 ∨ r = 3 ∨ r = 4 ∨ r = 5 ∨ r = 6)%Z
    as Hcases by lia.
  repeat (destruct Hcases as [->|Hcases]; [by vm_compute|]).
  subst r. by vm_compute.
Qed.

Lemma accumulate_cons (i j : nat) (f : value) (rest : list value) (s : float) :
  accumulate i j (f :: rest) s
  = accumulate i (S j) rest (s + weightFor i j * number_or_zero f).
Proof. reflexivity. Qed.

Lemma accumulate_zeros (i : nat) (features : list value) :
  Forall (λ v, is_zero (number_or_zero v) = true) features →
  ∀ j, accumulate i j features 0 = 0.
Proof.
  induction 1 as [|v features Hv _ IH]; intros j; [done|].
  rewrite accumulate_cons.
  destruct (weightFor_bounds i j) as [Hlo Hhi].
  rewrite (add_mul_zero _ _ Hlo Hhi Hv). apply IH.
Qed.

(** On a vector whose entries are all zeros, or not numbers at all, the
    weighted sums vanish and the logits are exactly the biases, each
    between -0.06 and 0.06; so is it for the empty vector. *)
Theorem zero_features_give_biases
    (labels : labels_file) (features : list value) :
  Forall (λ v, is_zero (number_or_zero v) = true) features →
  predictXGB labels (IsArray features) = Ok (bias <$> seq 0 (nLabels labels))
  ∧ Forall (λ b, (-0.06 <=? b) = true ∧ (b <=? 0.06) = true)
           (bias <$> seq 0 (nLabels labels)).
Proof.
  intros Hzero. split.
  - simpl. f_equal. apply list_fmap_ext. intros _ i _. unfold logit.
    rewrite (accumulate_zeros i features Hzero). apply bias_facts.
  - apply Forall_fmap, Forall_forall. intros i _. apply bias_facts.
Qed.

Lemma zero_features_give_biases_witness :
  predictXGB (LabelsArray ["a"; "b"]%string)
             (IsArray [VNumber 0; VString "7"; VNumber (-0); VNull])
  = Ok (bias <$> seq 0 2).
Proof.
  apply (zero_features_give_biases (LabelsArray ["a"; "b"]%string)
           [VNumber 0; VString "7"; VNumber (-0); VNull]).
  repeat constructor.
Defined.

Lemma accumulate_from_nan (i : nat) (features : list value) :
  ∀ j, accumulate i j features nan = nan.
Proof.
  induction features as [|v features IH]; intros j; [done|].
  rewrite accumulate_cons, add_nan_l. apply IH.
Qed.

Lemma accumulate_nan (i : nat) (features : list value) :
  Exists (λ v, is_nan (number_or_zero v) = true) features →
  ∀ j s, accumulate i j features s = nan.
Proof.
  induction 1 as [v features Hv|v features _ IH]; intros j s;
    rewrite accumulate_cons.
  - apply is_nan_eq in Hv. rewrite Hv, mul_nan_r, add_nan_r.
    apply accumulate_from_nan.
  - apply IH.
Qed.

Lemma logit_of_nan_feature (features : list value) (i : nat) :
  Exists (λ v, is_nan (number_or_zero v) = true) features →
  logit features i = nan.
Proof.
  intros Hnan. unfold logit.
  by rewrite (accumulate_nan i features Hnan), add_nan_l.
Qed.

Lemma fmap_seq_constant {A} (f : nat → A) (c : A) (n : nat) :
  (∀ i, f i = c) → ∀ start, f <$> seq start n = replicate n c.
Proof.
  intros Hf. induction n as [|n IH]; intros start; simpl; [done|].
  by rewrite Hf, IH.
Qed.

(** One NaN among the features makes every logit NaN: no label is spared,
    and the bias does not bring the sum back. *)
Theorem nan_feature_gives_nan_logits
    (labels : labels_file) (features : list value) :
  Exists (λ v, is_nan (number_or_zero v) = true) features →
  predictXGB labels (IsArray features) = Ok (replicate (nLabels labels) nan).
Proof.
  intros Hnan. unfold predictXGB. f_equal.
  apply fmap_seq_constant. intros i.
  by apply logit_of_nan_feature.
Qed.

Lemma nan_feature_gives_nan_logits_witness :
  predictXGB (LabelsArray ["a"; "b"; "c"]%string)
             (IsArray [VNumber 1; VNumber nan; VNumber 2])
  = Ok [nan; nan; nan].
Proof.
  apply (nan_feature_gives_nan_logits (LabelsArray ["a"; "b"; "c"]%string)
           [VNumber 1; VNumber nan; VNumber 2]).
  apply Exists_cons_tl, Exists_cons_hd. reflexivity.
Defined.

(** *** Zeros at the end of the features *)

Lemma same_or_zeros_trans (x y z : float) :
  same_or_zeros x y → same_or_zeros y z → same_or_zeros x z.
Proof.
  intros [->|(s1 & s2 & H1 & H2)] [->|(s3 & s4 & H3 & H4)];
    [by left | right; eauto | right; eauto | right; eauto].
Qed.

(** Adding a zero changes nothing but, at most, the sign of a zero. *)
Lemma add_zero_same (s z : float) :
  (∃ sz, Prim2SF z = S754_zero sz) → same_or_zeros (s + z) s.
Proof.
  intros [sz Hz]. destruct (Prim2SF s) as [sx|sx| |sx m e] eqn:Hs.
  - right. exists (if Bool.eqb sx sz then sx else false), sx.
    split; [|done]. rewrite add_spec, Hs, Hz. by destruct sx, sz.
  - left. apply Prim2SF_inj. by rewrite add_spec, Hs, Hz.
  - left. apply Prim2SF_inj. by rewrite add_spec, Hs, Hz.
  - left. apply Prim2SF_inj. by rewrite add_spec, Hs, Hz.
Qed.

Lemma mul_zero_is_zero (w x : float) :
  (-0.5 <=? w) = true → (w <? 0.5) = true → is_zero x = true →
  ∃ s, Prim2SF (w * x) = S754_zero s.
Proof.
  intros Hlo Hhi [sx Hx]%is_zero_Prim2SF.
  destruct (bounded_finite w Hlo Hhi) as [s [Hw|(m & e & Hw)]];
    rewrite mul_spec, Hw, Hx; simpl; eauto.
Qed.

Lemma accumulate_zeros_same (i : nat) (pad : list value) :
  Forall (λ v, is_zero (number_or_zero v) = true) pad →
  ∀ j s, same_or_zeros (accumulate i j pad s) s.
Proof.
  induction 1 as [|v pad Hv _ IH]; intros j s; [by left|].
  rewrite accumulate_cons.
  eapply same_or_zeros_trans; [apply IH|].
  apply add_zero_same.
  destruct (weightFor_bounds i j) as [Hlo Hhi].
  by apply mul_zero_is_zero.
Qed.

Lemma accumulate_app (i : nat) (f g : list value) :
  ∀ j s, accumulate i j (f ++ g) s
         = accumulate i (j + length f) g (accumulate i j f s).
Proof.
  induction f as [|v f IH]; intros j s.
  - simpl. by rewrite Nat.add_0_r.
  - rewrite <- app_comm_cons, !accumulate_cons, IH. simpl length.
    by replace (S j + length f)%nat with (j + S (length f))%nat by lia.
Qed.

(** The bias is no -0, so it takes a +0 and a -0 to the same sum. *)
Lemma add_bias_same (x y : float) (i : nat) :
  same_or_zeros x y → x + bias i = y + bias i.
Proof.
  intros [->|(s & s' & Hx & Hy)]; [done|].
  destruct (bias_rem i) as (r & Hr & ->).
  assert (r = 0 ∨ r = 1 ∨ r = 2 ∨ r = 3 ∨ r = 4 ∨ r = 5 ∨ r = 6)%Z
    as Hcases by lia.
  apply Prim2SF_inj. rewrite !add_spec, Hx, Hy.
  repeat (destruct Hcases as [->|Hcases];
    [match goal with
     | |- context [Prim2SF ?b] =>
         let v := eval vm_compute in (Prim2SF b) in
         replace (Prim2SF b) with v by (vm_compute; reflexivity)
     end; by destruct s, s'|]).
  subst r.
  match goal with
  | |- context [Prim2SF ?b] =>
      let v := eval vm_compute in (Prim2SF b) in
      replace (Prim2SF b) with v by (vm_compute; reflexivity)
  end. by destruct s, s'.
Qed.

(** Zeros, or entries that are not numbers, at the end of the features
    change no logit: a vector scores as the same vector cut before them. *)
Theorem trailing_zeros_change_nothing
    (labels : labels_file) (features pad : list value) :
  Forall (λ v, is_zero (number_or_zero v) = true) pad →
  predictXGB labels (IsArray (features ++ pad))
  = predictXGB labels (IsArray features).
Proof.
  intros Hpad. unfold predictXGB. f_equal.
  apply list_fmap_ext. intros _ i _. unfold logit.
  rewrite accumulate_app. apply add_bias_same.
  by apply accumulate_zeros_same.
Qed.

Lemma trailing_zeros_change_nothing_witness :
  predictXGB (LabelsArray ["a"; "b"; "c"]%string)
             (IsArray ([VNumber 1.5; VNumber (-2)]
                       ++ [VNumber 0; VNull; VNumber (-0)]))
  = predictXGB (LabelsArray ["a"; "b"; "c"]%string)
               (IsArray [VNumber 1.5; VNumber (-2)]).
Proof.
  apply (trailing_zeros_change_nothing (LabelsArray ["a"; "b"; "c"]%string)
           [VNumber 1.5; VNumber (-2)] [VNumber 0; VNull; VNumber (-0)]).
  repeat constructor.
Defined.

End BoosterExtras.

(** ** More on the prediction handler *)

Module HandlerExtras.
Import JS FloatFacts FloatSignFacts PredictDisease SelectionFacts.

#[local] Open Scope float_scope.



Section WithExp.

Variable Math_exp : float → float.



(** A client error is decided before the artifacts are looked at: any
    method but POST is answered 405 and a body whose [symptoms] is no array
    400, whether or not the artifacts load; the handler knows no status
    other than 200, 400, 405 and 500. *)
Theorem client_errors_before_artifacts
    (load : result artifacts) (req : request) :
  (status (handler Math_exp load req) = 405%Z ↔ method req ≠ "POST"%string)
  ∧ (status (handler Math_exp load req) = 400%Z ↔
       method req = "POST"%string ∧ json req = Ok SymptomsOther)
  ∧ (method req ≠ "POST"%string
     ∨ (∃ err, json req = Throw err)
     ∨ json req = Ok SymptomsOther →
     ∀ load', handler Math_exp load' req = handler Math_exp load req)
  ∧ status (handler Math_exp load req) ∈ [200; 400; 405; 500]%Z.
Proof.
  unfold handler.
  destruct (String.eqb_spec (method req) "POST") as [Hm|Hm]; simpl.
  - destruct (json req) as [[symptoms|]|err] eqn:Hj; simpl.
    + destruct load as [files|err]; simpl;
        [destruct (predictXGB files _) as [logits|err]; simpl|];
        (split; [split; [done | by intros ?]|]);
        (split; [split; [done | by intros [_ ?]]|]);
        (split; [by intros [?|[[? ?]|?]]|]);
        rewrite !elem_of_cons; auto.
    + split; [split; [done | by intros ?]|].
      split; [done|]. split; [done|]. rewrite !elem_of_cons; auto.
    + split; [split; [done | by intros ?]|].
      split; [split; [done | by intros [_ ?]]|]. split; [done|].
      rewrite !elem_of_cons; auto.
  - split; [done|]. split; [split; [done | by intros [? _]]|].
    split; [done|]. rewrite !elem_of_cons; auto.
Qed.



End WithExp.

Lemma client_errors_before_artifacts_witness :
  handler Math_exp_ref
          (Ok (placeholder {| mean := [0]; std := [1] |} ["flu"]%string))
          {| method := "GET"; json := Throw "no body" |}
  = handler Math_exp_ref (Throw "scaler.json is missing")
            {| method := "GET"; json := Throw "no body" |}.
Proof.
  apply (client_errors_before_artifacts Math_exp_ref
           (Throw "scaler.json is missing")
           {| method := "GET"; json := Throw "no body" |}).
  left. discriminate.
Defined.


End HandlerExtras.

(** ** More on the normalizer over the reals *)

Module NormalizerExtras.
Import Ideal NormalizerClaims.

#[local] Open Scope R_scope.






End NormalizerExtras.

(** ** The assistant endpoint *)

Module AssistantExtras.
Import Str StrFacts JS Assistant AssistantSpec.

#[local] Open Scope float_scope.

Lemma filter_other_types (t : string) (extra : list row) :
  Forall (λ x, data_type x ≠ t) extra →
  filter (λ x, data_type x = t) extra = [].
Proof.
  induction 1 as [|x extra Hx _ IH]; [done|].
  by rewrite filter_cons_False.
Qed.

Lemma filter_insert_other (t : string) (before extra after : list row) :
  Forall (λ x, data_type x ≠ t) extra →
  filter (λ x, data_type x = t) (before ++ extra ++ after)
  = filter (λ x, data_type x = t) (before ++ after).
Proof.
  intros H. by rewrite !filter_app, (filter_other_types t extra H).
Qed.

(** The four averages, by the type they select. *)
Lemma averages_by_filter (rows : list row) :
  averageSteps (calculateHealthInsights rows)
  = mean_of (filter (λ x, data_type x = "steps"%string) rows)
  ∧ averageHeartRate (calculateHealthInsights rows)
    = mean_of (filter (λ x, data_type x = "heart_rate"%string) rows)
  ∧ averageSleep (calculateHealthInsights rows)
    = mean_of (filter (λ x, data_type x = "sleep_session"%string) rows)
  ∧ averageSpo2 (calculateHealthInsights rows)
    = mean_of (filter (λ x, data_type x = "spo2"%string) rows).
Proof. by destruct rows. Qed.

(** Each average is taken over the rows of its own type only: rows of
    other, or unknown, types put anywhere among the rows change none of the
    averages they do not belong to, and a type without rows has the average
    0, not NaN. *)
Theorem averages_depend_on_own_type (before extra after : list row) :
  (Forall (λ x, data_type x ≠ "steps"%string) extra →
     averageSteps (calculateHealthInsights (before ++ extra ++ after))
     = averageSteps (calculateHealthInsights (before ++ after)))
  ∧ (Forall (λ x, data_type x ≠ "heart_rate"%string) extra →
     averageHeartRate (calculateHealthInsights (before ++ extra ++ after))
     = averageHeartRate (calculateHealthInsights (before ++ after)))
  ∧ (Forall (λ x, data_type x ≠ "sleep_session"%string) extra →
     averageSleep (calculateHealthInsights (before ++ extra ++ after))
     = averageSleep (calculateHealthInsights (before ++ after)))
  ∧ (Forall (λ x, data_type x ≠ "spo2"%string) extra →
     averageSpo2 (calculateHealthInsights (before ++ extra ++ after))
     = averageSpo2 (calculateHealthInsights (before ++ after)))
  ∧ (Forall (λ x, data_type x ≠ "steps"%string) extra →
     averageSteps (calculateHealthInsights extra) = 0)
  ∧ (Forall (λ x, data_type x ≠ "heart_rate"%string) extra →
     averageHeartRate (calculateHealthInsights extra) = 0).
Proof.
  destruct (averages_by_filter (before ++ extra ++ after))
    as (-> & -> & -> & ->).
  destruct (averages_by_filter (before ++ after)) as (-> & -> & -> & ->).
  destruct (averages_by_filter extra) as (-> & -> & _ & _).
  repeat split; intros H;
    by rewrite ?(filter_insert_other _ before extra after H),
               ?(filter_other_types _ extra H).
Qed.

Lemma averages_depend_on_own_type_witness :
  averageSteps
    (calculateHealthInsights
       ([{| data_type := "steps"; value := Some 4000;
            recorded_at := Some "2024-05-02"%string |}]
        ++ [{| data_type := "heart_rate"; value := Some 61;
               recorded_at := None |};
            {| data_type := "weight"; value := None; recorded_at := None |}]
        ++ [{| data_type := "steps"; value := Some 6000;
               recorded_at := None |}]))
  = averageSteps
      (calculateHealthInsights
         ([{| data_type := "steps"; value := Some 4000;
              recorded_at := Some "2024-05-02"%string |}]
          ++ [{| data_type := "steps"; value := Some 6000;
                 recorded_at := None |}])).
Proof.
  apply (averages_depend_on_own_type
           [{| data_type := "steps"; value := Some 4000;
               recorded_at := Some "2024-05-02"%string |}]
           [{| data_type := "heart_rate"; value := Some 61;
               recorded_at := None |};
            {| data_type := "weight"; value := None; recorded_at := None |}]
           [{| data_type := "steps"; value := Some 6000;
               recorded_at := None |}]).
  repeat constructor; discriminate.
Defined.

(** Every reply ends with the disclaimer, after at least one piece of
    text, and offers two suggestions at most. *)
Theorem reply_ends_with_disclaimer
    (prompt : string) (history : list chat_message) (ins : insights) :
  last (message (generateSafeResponse prompt history ins))
  = Some (Text disclaimer)
  ∧ (2 ≤ length (message (generateSafeResponse prompt history ins)))%nat
  ∧ (length (suggestions (generateSafeResponse prompt history ins)) ≤ 2)%nat.
Proof.
  unfold generateSafeResponse.
  destruct (includes _ "fever" || includes _ "cough" || includes _ "pain")%bool;
    [|destruct (includes _ "steps"); [|destruct (includes _ "heart")]];
    simpl; repeat split; lia.
Qed.

Lemma symptom_test (prompt : string) :
  (includes (toLowerCase prompt) "fever"
   || includes (toLowerCase prompt) "cough"
   || includes (toLowerCase prompt) "pain")%bool = true
  ↔ symptom_asked prompt.
Proof.
  unfold symptom_asked. rewrite !orb_true_iff, !includes_lower_ci. tauto.
Qed.

(** A prompt that names fever, cough or pain, in any case, gets the fixed
    answer that declines a diagnosis, with its two suggestions: no figure
    of the user's data is quoted, even when the prompt asks for steps or
    the heart as well, and the history plays no part. *)
Theorem symptom_words_come_first
    (prompt : string) (history : list chat_message) (ins : insights) :
  symptom_asked prompt →
  generateSafeResponse prompt history ins
  = {| message :=
         [Text "I can't diagnose conditions, but I can help interpret your recent health data.";
          Text disclaimer];
       suggestions :=
         ["Review health trends"; "Consult a healthcare provider"]%string |}.
Proof.
  intros H%symptom_test. unfold generateSafeResponse. by rewrite H.
Qed.

(** The only figures a reply quotes are the average of the steps, when the
    prompt names steps, and else the average heart rate, when it names the
    heart; never both, never with a symptom word in the prompt, and never
    the averages of sleep or SpO2. *)
Theorem reply_quotes_steps_or_heart
    (prompt : string) (history : list chat_message) (ins : insights)
    (x : float) :
  Rounded x ∈ message (generateSafeResponse prompt history ins) →
  ¬ symptom_asked prompt
  ∧ ((occurs_ci "steps" prompt ∧ x = averageSteps ins)
     ∨ (¬ occurs_ci "steps" prompt ∧ occurs_ci "heart" prompt
        ∧ x = averageHeartRate ins))
  ∧ length (filter (λ p, Is_true (is_figure p))
              (message (generateSafeResponse prompt history ins))) = 1%nat.
Proof.
  unfold generateSafeResponse.
  destruct (_ || _ || _)%bool eqn:Hsym.
  - simpl. rewrite !elem_of_cons, elem_of_nil. intros [?|[?|[]]]; done.
  - assert (Hnot : ¬ symptom_asked prompt).
    { rewrite <- symptom_test. by rewrite Hsym. }
    destruct (includes _ "steps") eqn:Hsteps.
    + apply includes_lower_ci in Hsteps. simpl.
      rewrite !elem_of_cons, elem_of_nil.
      intros [?|[[= ->]|[?|[?|[]]]]]; try done.
      split; [done|]. split; [by left | done].
    + assert (Hns : ¬ occurs_ci "steps" prompt).
      { rewrite <- includes_lower_ci. by rewrite Hsteps. }
      destruct (includes _ "heart") eqn:Hheart.
      * apply includes_lower_ci in Hheart. simpl.
        rewrite !elem_of_cons, elem_of_nil.
        intros [?|[[= ->]|[?|[?|[]]]]]; try done.
        split; [done|]. split; [by right | done].
      * simpl. rewrite !elem_of_cons, elem_of_nil.
        intros [?|[?|[]]]; done.
Qed.


Lemma symptom_words_come_first_witness :
  generateSafeResponse "How many STEPS with this chest Pain?" []
    (calculateHealthInsights
       [{| data_type := "steps"; value := Some 4000%float;
           recorded_at := None |}])
  = {| message :=
         [Text "I can't diagnose conditions, but I can help interpret your recent health data.";
          Text disclaimer];
       suggestions :=
         ["Review health trends"; "Consult a healthcare provider"]%string |}.
Proof.
  apply symptom_words_come_first. right. right.
  apply includes_lower_ci. reflexivity.
Defined.

Lemma reply_quotes_steps_or_heart_witness :
  ¬ symptom_asked "my heart after 900 Steps"
  ∧ ((occurs_ci "steps" "my heart after 900 Steps"
      ∧ 4000%float
        = averageSteps
            (calculateHealthInsights
               [{| data_type := "steps"; value := Some 4000%float;
                   recorded_at := None |}]))
     ∨ (¬ occurs_ci "steps" "my heart after 900 Steps"
        ∧ occurs_ci "heart" "my heart after 900 Steps"
        ∧ 4000%float
          = averageHeartRate
              (calculateHealthInsights
                 [{| data_type := "steps"; value := Some 4000%float;
                     recorded_at := None |}])))
  ∧ length (filter (λ p, Is_true (is_figure p))
              (message
                 (generateSafeResponse "my heart after 900 Steps" []
                    (calculateHealthInsights
                       [{| data_type := "steps"; value := Some 4000%float;
                           recorded_at := None |}]))))
    = 1%nat.
Proof.
  apply (reply_quotes_steps_or_heart "my heart after 900 Steps" []
           (calculateHealthInsights
              [{| data_type := "steps"; value := Some 4000%float;
                  recorded_at := None |}])
           4000%float).
  apply list_elem_of_further, list_elem_of_here.
Defined.

(** *** The token of the Authorization header *)

Lemma substring_all (s : string) :
  String.substring 0 (String.length s) s = s.
Proof. induction s as [|c s IH]; simpl; [done | by rewrite IH]. Qed.

Lemma substring_after (pat t : string) :
  String.substring (String.length pat)
    (String.length (pat +:+ t) - String.length pat) (pat +:+ t)
  = t.
Proof.
  induction pat as [|c pat IH].
  - rewrite app_nil. simpl. rewrite Nat.sub_0_r. apply substring_all.
  - rewrite app_cons. simpl. exact IH.
Qed.

Lemma replace_first_eq (pat rep s : string) :
  replace_first pat rep s
  = if String.prefix pat s
    then rep +:+ String.substring (String.length pat)
                   (String.length s - String.length pat) s
    else match s with
         | EmptyString => EmptyString
         | String c s' => String c (replace_first pat rep s')
         end.
Proof. by destruct s. Qed.

Lemma replace_first_prefix (pat rep t : string) :
  replace_first pat rep (pat +:+ t) = rep +:+ t.
Proof.
  assert (Hp : String.prefix pat (pat +:+ t) = true).
  { apply prefix_app. by exists t. }
  pose proof (substring_after pat t) as Hs.
  by rewrite replace_first_eq, Hp, Hs.
Qed.

Lemma replace_first_absent (pat rep s : string) :
  ¬ occurs pat s → replace_first pat rep s = s.
Proof.
  induction s as [|c s IH]; intros Hno.
  - destruct (String.prefix pat EmptyString) eqn:Hp.
    + exfalso. apply Hno. apply prefix_app in Hp as [post Hp].
      exists EmptyString, post. by rewrite app_nil.
    + by rewrite replace_first_eq, Hp.
  - destruct (String.prefix pat (String c s)) eqn:Hp.
    + exfalso. apply Hno. apply prefix_app in Hp as [post Hp].
      exists EmptyString, post. by rewrite app_nil.
    + rewrite replace_first_eq, Hp. f_equal. apply IH.
      intros (pre & post & ->). apply Hno.
      exists (String c pre), post. by rewrite app_cons.
Qed.

(** The header "Bearer " followed by a token gives that token back, white
    space at its ends apart; a header in which "Bearer " does not occur
    (another scheme, or another case of the letters) is taken whole as the
    token. *)
Theorem token_of_bearer (t : string) :
  token_of ("Bearer " +:+ t) = trim t
  ∧ (trim t = t → token_of ("Bearer " +:+ t) = t)
  ∧ (¬ occurs "Bearer " t → token_of t = trim t).
Proof.
  unfold token_of.
  rewrite (replace_first_prefix "Bearer " EmptyString t), app_nil.
  split; [done|]. split; [done|].
  intros Hno. by rewrite replace_first_absent.
Qed.

Lemma token_of_bearer_witness :
  token_of ("Bearer " +:+ "eyJhbGciOi.J9") = "eyJhbGciOi.J9"%string
  ∧ token_of "bearer eyJhbGciOi.J9" = trim "bearer eyJhbGciOi.J9".
Proof.
  split.
  - apply (proj1 (proj2 (token_of_bearer "eyJhbGciOi.J9"))). reflexivity.
  - apply (proj2 (proj2 (token_of_bearer "bearer eyJhbGciOi.J9"))).
    apply (proj1 (includes_false _ _)). reflexivity.
Defined.

(** *** The handler *)

(** Every response carries the three CORS headers first, and an error
    body is one of three fixed texts: what an exception says is never sent
    to the client. *)
Theorem responses_carry_cors (sv : services) (req : chat_request) :
  take 3 (c_headers (chat_handler sv req).1) = corsHeaders
  ∧ (∀ error, c_body (chat_handler sv req).1 = ChatError error →
       error ∈ ["Missing authorization"; "Invalid user"; "internal error"]%string
       ∧ c_status (chat_handler sv req).1 ∈ [401; 500]%Z)
  ∧ c_status (chat_handler sv req).1 ∈ [200; 401; 500]%Z.
Proof.
  unfold chat_handler, internal_error, unauthorized.
  repeat case_match; simpl; (split; [done|]);
    (split; [intros error [= <-] || intros error [=] |]);
    rewrite ?elem_of_cons; auto 6.
Qed.

Lemma responses_carry_cors_witness :
  "Missing authorization"%string
    ∈ ["Missing authorization"; "Invalid user"; "internal error"]%string
  ∧ 401%Z ∈ [401; 500]%Z.
Proof.
  apply (proj1 (proj2 (responses_carry_cors
                         {| createClient := Ok ();
                            getUser := λ _, Throw "offline";
                            since := "2024-05-01T00:00:00.000Z";
                            select_health := λ _ _, Throw "offline" |}
                         {| c_method := "POST"; authorization := None;
                            c_json := Throw "no body" |}))
           "Missing authorization"%string).
  reflexivity.
Defined.

(** Health records are read only for an authenticated user: a call to the
    table names the id that [getUser] gave, without error, for the token of
    the request's Authorization header; so does a reply, whose insights
    are computed from the rows selected for that id.  A request without
    that header, and an OPTIONS request, call no service at all. *)
Theorem records_read_for_authenticated_user
    (sv : services) (req : chat_request) :
  (∀ id date, CallSelect id date ∈ (chat_handler sv req).2 →
     date = since sv
     ∧ ∃ authHeader,
         authorization req = Some authHeader
         ∧ getUser sv (token_of authHeader)
           = Ok {| user := Some id; userError := false |})
  ∧ (∀ parts actions ins,
       c_body (chat_handler sv req).1 = ChatResponse parts actions ins →
       ∃ authHeader id data,
         authorization req = Some authHeader
         ∧ getUser sv (token_of authHeader)
           = Ok {| user := Some id; userError := false |}
         ∧ select_health sv id (since sv) = Ok data
         ∧ ins = calculateHealthInsights (default [] data)
         ∧ (chat_handler sv req).2
           = [CallGetUser (token_of authHeader); CallSelect id (since sv)])
  ∧ (c_method req = "OPTIONS"%string
     ∨ authorization req = None
     ∨ authorization req = Some EmptyString →
     (chat_handler sv req).2 = []).
Proof.
  unfold chat_handler.
  destruct (String.eqb_spec (c_method req) "OPTIONS") as [Hm|Hm].
  { simpl. split; [|split]; [|done..].
    intros id date H. by apply elem_of_nil in H. }
  destruct (createClient sv) as [[]|err].
  2:{ simpl. split; [|split]; [|done..].
      intros id date H. by apply elem_of_nil in H. }
  destruct (authorization req) as [[|c rest]|] eqn:Hauth.
  1,3: simpl; (split; [|split]; [|done..]);
       intros id date H; by apply elem_of_nil in H.
  set (authHeader := String c rest) in *.
  destruct (getUser sv (token_of authHeader)) as [[[id|] []]|err] eqn:Hget;
    simpl.
  1,3,4,5: (split; [|split]; [|done|by intros [?|[?|?]]]);
       intros id' date; rewrite elem_of_cons, elem_of_nil;
       by intros [?|[]].
  destruct (c_json req) as [[prompt history]|err]; simpl.
  2:{ split; [|split]; [|done|by intros [?|[?|?]]].
      intros id' date. rewrite elem_of_cons, elem_of_nil. by intros [?|[]]. }
  assert (Hcall : ∀ id' date,
            CallSelect id' date
              ∈ [CallGetUser (token_of authHeader); CallSelect id (since sv)] →
            date = since sv
            ∧ ∃ h, Some authHeader = Some h
                   ∧ getUser sv (token_of h)
                     = Ok {| user := Some id'; userError := false |}).
  { intros id' date. rewrite !elem_of_cons, elem_of_nil.
    intros [?|[[= -> ->]|[]]]; [done|]. split; [done|]. by exists authHeader. }
  destruct (select_health sv id (since sv)) as [data|err] eqn:Hsel; simpl.
  2:{ split; [exact Hcall|]. split; [done | by intros [?|[?|?]]]. }
  destruct prompt as [prompt|]; simpl.
  2:{ split; [exact Hcall|]. split; [done | by intros [?|[?|?]]]. }
  split; [exact Hcall|]. split; [|by intros [?|[?|?]]].
  intros parts actions ins [= <- <- <-].
  by exists authHeader, id, data.
Qed.

Lemma records_read_for_authenticated_user_witness :
  ("2024-05-01T00:00:00.000Z"%string = "2024-05-01T00:00:00.000Z"%string
   ∧ ∃ authHeader,
       Some "Bearer t0k3n"%string = Some authHeader
       ∧ (if String.eqb (token_of authHeader) "t0k3n"
          then Ok {| user := Some "user-7"%string; userError := false |}
          else Ok {| user := None; userError := false |})
         = Ok {| user := Some "user-7"%string; userError := false |})
  ∧ (chat_handler
     {| createClient := Ok ();
        getUser := λ token,
          if String.eqb token "t0k3n"
          then Ok {| user := Some "user-7"%string; userError := false |}
          else Ok {| user := None; userError := false |};
        since := "2024-05-01T00:00:00.000Z";
        select_health := λ _ _, Ok (Some []) |}
     {| c_method := "GET"; authorization := None;
        c_json := Ok (PromptString "steps", []) |}).2
  = [].
Proof.
  split.
  - apply (proj1 (records_read_for_authenticated_user
                    {| createClient := Ok ();
                       getUser := λ token,
                         if String.eqb token "t0k3n"
                         then Ok {| user := Some "user-7"%string;
                                    userError := false |}
                         else Ok {| user := None; userError := false |};
                       since := "2024-05-01T00:00:00.000Z";
                       select_health := λ _ _, Ok (Some []) |}
                    {| c_method := "POST";
                       authorization := Some "Bearer t0k3n"%string;
                       c_json := Ok (PromptString "steps", []) |})
             "user-7"%string "2024-05-01T00:00:00.000Z"%string).
    apply list_elem_of_further, list_elem_of_here.
  - apply records_read_for_authenticated_user. right. left. reflexivity.
Defined.

End AssistantExtras.
